(** * Token budgeting of the chat client: [src/utils/messageUtils.ts]

    A shallow embedding of the message utilities: the full-width to
    half-width normaliser [toHalfWidth], the prompt serialiser
    [getChatGPTEncoding], the token counter [countTokens], the budget
    selector [limitMessageTokens] and the usage accumulator
    [updateTotalTokenUsed].

    Conventions of the embedding.
    - A JavaScript string is the list of its UTF-16 code units, each a [Z]
      in [0, 65535].  The regular expression of [toHalfWidth] has no [u]
      flag and all its characters lie in the Basic Multilingual Plane, so
      it matches one code unit at a time.
    - JavaScript numbers that count tokens are modelled by [Z]; the
      counters stay far below 2^53, where the arithmetic of doubles is
      exact.
    - The tiktoken encoder is an external library: it is a parameter
      [encode] of every definition that tokenises.
    - A thrown exception is a value [Throw e] of the type [result]. *)

From Stdlib Require Import ZArith Lia Bool.
From stdpp Require Import gmap strings list fin_maps.

Local Open Scope Z_scope.

(** ** JavaScript strings *)

(** Code units of an ASCII literal. *)
Definition js (s : string) : list Z :=
  (fun a => Z.of_N (Ascii.N_of_ascii a)) <$> String.list_ascii_of_string s.

(** The line feed written ['\n'] in the source. *)
Definition LF : list Z := [10].

(** [Array.prototype.join] on an array of strings. *)
Fixpoint join (sep : list Z) (parts : list (list Z)) : list Z :=
  match parts with
  | [] => []
  | [p] => p
  | p :: rest => p ++ sep ++ join sep rest
  end.

(** Boolean test that [p] is a prefix of [s]. *)
Fixpoint starts_with (p s : list Z) : bool :=
  match p, s with
  | [], _ => true
  | _ :: _, [] => false
  | x :: p', y :: s' => (x =? y) && starts_with p' s'
  end.

(** [String.prototype.includes]: [p] occurs somewhere in [s]. *)
Fixpoint includes (p s : list Z) : bool :=
  starts_with p s ||
  match s with
  | [] => false
  | _ :: s' => includes p s'
  end.

(** ** Exceptions *)

Inductive exn : Type :=
| TypeError.

Inductive result (A : Type) : Type :=
| Ok (a : A)
| Throw (e : exn).

Arguments Ok {A} a.
Arguments Throw {A} e.

(** [result] is a monad; sequencing is written [x ← r; k], and a [Throw]
    skips what follows. *)
#[global] Instance result_ret : MRet result := fun A a => Ok a.

#[global] Instance result_bind : MBind result := fun A B k r =>
  match r with
  | Ok a => k a
  | Throw e => Throw e
  end.

(** ** Messages *)

(** Modelled from the spec: the types of [@type/chat] are not in the
    sources; a message has a role among user, assistant and system, and
    a text content. *)
Inductive Role : Type :=
| user
| assistant
| system.

(** Modelled from the spec: [MessageInterface], see [Role]. *)
Record MessageInterface : Type := mkMessage {
  role : Role;
  content : list Z
}.

(** The text a role takes inside a template literal. *)
Definition role_text (r : Role) : list Z :=
  match r with
  | user => js "user"
  | assistant => js "assistant"
  | system => js "system"
  end.

Definition is_system (r : Role) : bool :=
  match r with
  | system => true
  | _ => false
  end.

(** ** The normaliser *)

(** The module-level [halfWidthMap]: curly quotes to straight quotes.
    The source declares this [Map] and never reads it. *)
Definition halfWidthMap : list (Z * list Z) :=
  [ (0x201c, [34]); (0x201d, [34]); (0x2018, [39]); (0x2019, [39]) ].

(** The character class of [fullWidthSymbolsRegex]: three ranges and the
    listed punctuation. *)
Definition fullWidthSymbolsRegex (c : Z) : bool :=
  ((0xff21 <=? c) && (c <=? 0xff3a))
  || ((0xff41 <=? c) && (c <=? 0xff5a))
  || ((0xff10 <=? c) && (c <=? 0xff19))
  || existsb (Z.eqb c)
       [ 0xff08; 0xff09; 0xff3b; 0xff3d; 0xff5b; 0xff5d; 0xff1c; 0xff1e;
         0xff06; 0xff03; 0xff20; 0xff0a; 0xff0b; 0xff0d; 0xff1d; 0xff5e;
         0xff01; 0xff05; 0xff07; 0xff02; 0xff0c; 0xff0e; 0xff0f; 0xff1a;
         0xff1b; 0xff1f; 0xff3c; 0xff3e; 0xff3f; 0xff40; 0xff5c; 0xffe3 ].

(** The object literal [halfWidthSymbolsMapping], in source order. *)
Definition halfWidthSymbolsMapping : list (Z * list Z) :=
[ (0xff21, js "A"); (0xff22, js "B"); (0xff23, js "C"); (0xff24, js "D"); (0xff25, js "E");
  (0xff26, js "F"); (0xff27, js "G"); (0xff28, js "H"); (0xff29, js "I"); (0xff2a, js "J");
  (0xff2b, js "K"); (0xff2c, js "L"); (0xff2d, js "M"); (0xff2e, js "N"); (0xff2f, js "O");
  (0xff30, js "P"); (0xff31, js "Q"); (0xff32, js "R"); (0xff33, js "S"); (0xff34, js "T");
  (0xff35, js "U"); (0xff36, js "V"); (0xff37, js "W"); (0xff38, js "X"); (0xff39, js "Y");
  (0xff3a, js "Z"); (0xff41, js "a"); (0xff42, js "b"); (0xff43, js "c"); (0xff44, js "d");
  (0xff45, js "e"); (0xff46, js "f"); (0xff47, js "g"); (0xff48, js "h"); (0xff49, js "i");
  (0xff4a, js "j"); (0xff4b, js "k"); (0xff4c, js "l"); (0xff4d, js "m"); (0xff4e, js "n");
  (0xff4f, js "o"); (0xff50, js "p"); (0xff51, js "q"); (0xff52, js "r"); (0xff53, js "s");
  (0xff54, js "t"); (0xff55, js "u"); (0xff56, js "v"); (0xff57, js "w"); (0xff58, js "x");
  (0xff59, js "y"); (0xff5a, js "z"); (0xff10, js "0"); (0xff11, js "1"); (0xff12, js "2");
  (0xff13, js "3"); (0xff14, js "4"); (0xff15, js "5"); (0xff16, js "6"); (0xff17, js "7");
  (0xff18, js "8"); (0xff19, js "9"); (0xff08, js "("); (0xff09, js ")"); (0xff3b, js "[");
  (0xff3d, js "]"); (0xff5b, js "{"); (0xff5d, js "}"); (0xff1c, js "<"); (0xff1e, js ">");
  (0xff06, js "&"); (0xff03, js "#"); (0xff20, js "@"); (0xff0a, js "*"); (0xff0b, js "+");
  (0xff0d, js "-"); (0xff1d, js "="); (0xff5e, js "~"); (0xff01, js "!"); (0xff05, js "%");
  (0xff07, js "'"); (0xff02, [34]); (0xff0c, js ","); (0xff0e, js "."); (0xff0f, js "/");
  (0xff1a, js ":"); (0xff1b, js ";"); (0xff1f, js "?"); (0xff3c, js "\"); (0xff3e, js "^");
  (0xff3f, js "_"); (0xff40, js "`"); (0xff5c, js "|"); (0xffe3, js "~") ].

(** Property read [obj[key]] on an object literal whose keys are
    one-character strings. *)
Fixpoint property (key : Z) (obj : list (Z * list Z)) : option (list Z) :=
  match obj with
  | [] => None
  | (k, v) :: obj' => if k =? key then Some v else property key obj'
  end.

(** The replacer callback [(match) => halfWidthSymbolsMapping[match] || match]:
    [||] falls back to the match when the read is [undefined] or the
    empty string. *)
Definition replacer (c : Z) : list Z :=
  match property c halfWidthSymbolsMapping with
  | Some (x :: v) => x :: v
  | _ => [c]
  end.

(** [text.replace(fullWidthSymbolsRegex, replacer)] with the [g] flag:
    every code unit of the class is replaced by what the callback
    returns, the others are copied. *)
Definition toHalfWidth (text : list Z) : list Z :=
  c ← text; if fullWidthSymbolsRegex c then replacer c else [c].

(** ** Arrays *)

(** [array.splice(start, 0, item)]: a negative [start] counts from the
    end and is clamped at 0, a positive one is clamped at the length. *)
Definition splice_insert {A : Type} (start : Z) (item : A) (array : list A) : list A :=
  let len := Z.of_nat (length array) in
  let actualStart :=
    if start <? 0 then Z.max (len + start) 0 else Z.min start len in
  take (Z.to_nat actualStart) array ++ item :: drop (Z.to_nat actualStart) array.

(** The copy [{ ...messages[i] }] of an element that is there.  At each
    of its uses the element has just been counted, and counting an
    [undefined] element throws, so the [None] case is never reached. *)
Definition spread (element : option MessageInterface) : result MessageInterface :=
  match element with
  | Some m => Ok (mkMessage (role m) (content m))
  | None => Throw TypeError
  end.

(** ** The session store *)

(** Modelled from the spec: an entry of [TotalTokenUsed] has the two
    counters [promptTokens] and [completionTokens]; the code reads either
    with the default 0, so a field may be missing. *)
Record TokenEntry : Type := mkEntry {
  promptTokens : option Z;
  completionTokens : option Z
}.

(** Modelled from the spec: the store of [@store/store] is not in the
    sources; the spec gives it a getter and a setter for the one field
    [totalTokenUsed], a mapping from model to counters. *)
Record StoreState : Type := mkStore {
  totalTokenUsed : gmap string TokenEntry
}.

(** Modelled from the spec: [setTotalTokenUsed] replaces the field. *)
Definition setTotalTokenUsed (t : gmap string TokenEntry) (st : StoreState) : StoreState :=
  mkStore t.

(** [JSON.parse(JSON.stringify(t))]: a fresh object with the same keys,
    each entry rebuilt from the fields that are defined. *)
Definition json_clone (t : gmap string TokenEntry) : gmap string TokenEntry :=
  (fun e => mkEntry (promptTokens e) (completionTokens e)) <$> t.

(** ** Serialiser, counter, selector and accumulator *)

Section Encoder.

(** [encoder.encode(text, 'all')] of the tiktoken library. *)
Variable encode : list Z -> list Z.

(** The text of one message inside the [map] callback of
    [getChatGPTEncoding]; destructuring [undefined] throws. *)
Definition message_text (roleSep : list Z) (element : option MessageInterface)
  : result (list Z) :=
  match element with
  | Some m =>
      let _content := toHalfWidth (content m) in
      Ok (js "<|im_start|>" ++ role_text (role m) ++ roleSep ++ _content
          ++ js "<|im_end|>")
  | None => Throw TypeError
  end.

(** The constant [serialized] of [getChatGPTEncoding]. *)
Definition serialized (messages : list (option MessageInterface)) (model : string)
  : result (list Z) :=
  let isGpt3 := String.eqb model "gpt-3.5-turbo" in
  let msgSep := if isGpt3 then LF else [] in
  let roleSep := if isGpt3 then LF else js "<|im_sep|>" in
  parts ← mapM (message_text roleSep) messages;
  Ok (join msgSep [ join msgSep parts; js "<|im_start|>assistant" ++ roleSep ]).

Definition getChatGPTEncoding (messages : list (option MessageInterface))
  (model : string) : result (list Z) :=
  text ← serialized messages model;
  Ok (encode text).

Definition countTokens (messages : list (option MessageInterface)) (model : string)
  : result Z :=
  if (length messages =? 0)%nat then Ok 0
  else
    tokens ← getChatGPTEncoding messages model;
    Ok (Z.of_nat (length tokens)).

(** The [for] loop of [limitMessageTokens], from index [i] down to 1,
    on the loop state [(tokenCount, limitedMessages)]; [break] returns
    the state. *)
Fixpoint scan (messages : list MessageInterface) (limit : Z) (model : string)
  (i : nat) (tokenCount : Z) (limitedMessages : list MessageInterface)
  : result (Z * list MessageInterface) :=
  match i with
  | O => Ok (tokenCount, limitedMessages)
  | S i' =>
      count ← countTokens [messages !! i] model;
      if count + tokenCount >? limit then Ok (tokenCount, limitedMessages)
      else
        copy ← spread (messages !! i);
        scan messages limit model i' (tokenCount + count) (copy :: limitedMessages)
  end.

Definition limitMessageTokens (messages : list MessageInterface) (limit : Z)
  (model : string) : result (list MessageInterface) :=
  let isSystemFirstMessage :=
    match messages !! 0%nat with
    | Some m => is_system (role m)
    | None => false
    end in
  let tokenCount := 0 in
  (* Check if the first message is a system message and if it fits *)
  let systemCheck : result (Z * bool) :=
    if isSystemFirstMessage then
      systemTokenCount ← countTokens [messages !! 0%nat] model;
      if systemTokenCount <? limit then Ok (tokenCount + systemTokenCount, true)
      else Ok (tokenCount, false)
    else Ok (tokenCount, false) in
  '(tokenCount, retainSystemMessage) ← systemCheck;
  (* Iterate through messages in reverse order (excludes first message) *)
  '(tokenCount, limitedMessages) ←
    scan messages limit model (length messages - 1) tokenCount [];
  (* Process first message *)
  let firstMessage (retainSystemMessage : bool) : result (list MessageInterface) :=
    if retainSystemMessage then
      copy ← spread (messages !! 0%nat);
      Ok (splice_insert (-3) copy limitedMessages)
    else if negb isSystemFirstMessage then
      firstMessageTokenCount ← countTokens [messages !! 0%nat] model;
      if firstMessageTokenCount + tokenCount <? limit then
        copy ← spread (messages !! 0%nat);
        Ok (copy :: limitedMessages)
      else Ok limitedMessages
    else Ok limitedMessages in
  limitedMessages ← firstMessage retainSystemMessage;
  (* convert to half width *)
  Ok (map (fun message => mkMessage (role message) (toHalfWidth (content message)))
           limitedMessages).

(** The parameter default [limit = 4096]. *)
Definition limitMessageTokens_default (messages : list MessageInterface)
  (model : string) : result (list MessageInterface) :=
  limitMessageTokens messages 4096 model.

Definition updateTotalTokenUsed (model : string)
  (promptMessages : list MessageInterface) (completionMessage : MessageInterface)
  (st : StoreState) : result StoreState :=
  let updatedTotalTokenUsed := json_clone (totalTokenUsed st) in
  newPromptTokens ← countTokens (Some <$> promptMessages) model;
  newCompletionTokens ← countTokens [Some completionMessage] model;
  let entry := default (mkEntry None None) (updatedTotalTokenUsed !! model) in
  let promptTokens0 := default 0 (promptTokens entry) in
  let completionTokens0 := default 0 (completionTokens entry) in
  Ok (setTotalTokenUsed
        (<[model := mkEntry (Some (promptTokens0 + newPromptTokens))
                            (Some (completionTokens0 + newCompletionTokens))]>
           updatedTotalTokenUsed)
        st).

End Encoder.

(** ** A small encoder to run the definitions with

    It reads the text from left to right, turns each occurrence of
    [<|im_start|>] into the reserved token 100264 and every other code
    unit into a token of its own.  [skip] is the number of code units
    still to be passed over after a marker. *)
Fixpoint toy_scan (skip : nat) (text : list Z) : list Z :=
  match text with
  | [] => []
  | c :: text' =>
      match skip with
      | S k => toy_scan k text'
      | O =>
          if starts_with (js "<|im_start|>") text
          then 100264 :: toy_scan 11 text'
          else c :: toy_scan 0 text'
      end
  end.

Definition toy_encode (text : list Z) : list Z := toy_scan 0 text.

Definition GPT35 : string := "gpt-3.5-turbo".
Definition GPT4 : string := "gpt-4".

Definition msgS : MessageInterface := mkMessage system (js "S").
Definition msgU1 : MessageInterface := mkMessage user (js "U1").
Definition msgA1 : MessageInterface := mkMessage assistant (js "A1").
Definition msgU2 : MessageInterface := mkMessage user (js "U2").
Definition msgA2 : MessageInterface := mkMessage assistant (js "A2").

(** ** Closed forms used in the statements *)

(** The constants [msgSep] and [roleSep] of [getChatGPTEncoding]. *)
Definition msgSep_of (model : string) : list Z :=
  if String.eqb model "gpt-3.5-turbo" then LF else [].

Definition roleSep_of (model : string) : list Z :=
  if String.eqb model "gpt-3.5-turbo" then LF else js "<|im_sep|>".

(** What follows the marker [<|im_start|>] for one message, up to and
    including the message separator. *)
Definition turn (model : string) (m : MessageInterface) : list Z :=
  role_text (role m) ++ roleSep_of model ++ toHalfWidth (content m)
  ++ js "<|im_end|>" ++ msgSep_of model.

(** What follows the last [<|im_start|>]: the open assistant turn. *)
Definition open_turn (model : string) : list Z :=
  js "assistant" ++ roleSep_of model.

(** The prompt of a non-empty array of messages, as one concatenation. *)
Definition prompt (model : string) (ms : list MessageInterface) : list Z :=
  (m ← ms; js "<|im_start|>" ++ turn model m)
  ++ js "<|im_start|>" ++ open_turn model.

(** The copy that the final [forEach] leaves in the output. *)
Definition normalised (m : MessageInterface) : MessageInterface :=
  mkMessage (role m) (toHalfWidth (content m)).

(** Dialect A as the specification words it: newline between messages,
    newline between role and content, no marker around a message, then
    the open assistant turn. *)
Definition dialectA_spec (ms : list MessageInterface) : list Z :=
  join LF [ join LF (map (fun m => role_text (role m) ++ LF ++ toHalfWidth (content m)) ms);
            js "<|im_start|>assistant" ++ LF ].

Section Counts.

Variable encode : list Z -> list Z.
Variable model : string.

(** The number [countTokens] returns on an array without holes. *)
Definition tokens (ms : list MessageInterface) : Z :=
  match ms with
  | [] => 0
  | _ :: _ => Z.of_nat (length (encode (prompt model ms)))
  end.

(** The sum of the counts of the messages taken one by one: what the
    variable [tokenCount] adds up. *)
Definition total (ms : list MessageInterface) : Z :=
  foldr (fun m sum => tokens [m] + sum) 0 ms.

(** Tokens of the turns of [ms], each with its opening marker. *)
Definition turn_tokens (ms : list MessageInterface) : nat :=
  foldr (fun m n => S (length (encode (turn model m))) + n)%nat 0%nat ms.

(** The reverse scan as a recursion on the messages still to visit,
    latest first. *)
Fixpoint accept (limit : Z) (pending : list MessageInterface) (tokenCount : Z)
  (accepted : list MessageInterface) : Z * list MessageInterface :=
  match pending with
  | [] => (tokenCount, accepted)
  | m :: pending' =>
      if tokens [m] + tokenCount >? limit then (tokenCount, accepted)
      else accept limit pending' (tokenCount + tokens [m]) (m :: accepted)
  end.

(** The messages chosen from a history [first :: rest], before the final
    normalisation. *)
Definition selection (limit : Z) (first : MessageInterface)
  (rest : list MessageInterface) : list MessageInterface :=
  let retain := is_system (role first) && (tokens [first] <? limit) in
  let '(tokenCount, accepted) :=
    accept limit (reverse rest) (if retain then tokens [first] else 0) [] in
  if retain then splice_insert (-3) first accepted
  else if is_system (role first) then accepted
  else if tokens [first] + tokenCount <? limit then first :: accepted
  else accepted.

End Counts.

(** The invariant of the selector as the specification words it: the
    output is a contiguous suffix of the (normalised) history, or the
    first message, of role system, followed by such a suffix. *)
Definition suffix_with_system_prefix (messages out : list MessageInterface) : Prop :=
  exists kept,
    kept `suffix_of` (normalised <$> messages)
    /\ (out = kept
        \/ exists first, messages !! 0%nat = Some first /\ role first = system
                         /\ out = normalised first :: kept).

(** The counters stored for a model, a missing entry or field read as 0. *)
Definition stored_prompt (st : StoreState) (model : string) : Z :=
  match totalTokenUsed st !! model with
  | Some entry => default 0 (promptTokens entry)
  | None => 0
  end.

Definition stored_completion (st : StoreState) (model : string) : Z :=
  match totalTokenUsed st !! model with
  | Some entry => default 0 (completionTokens entry)
  | None => 0
  end.

(** A store in which 'gpt-3.5-turbo' has used one prompt token and one
    completion token, and 'gpt-4' seven and nine. *)
Definition store0 : StoreState :=
  mkStore (<[GPT35 := mkEntry (Some 1) (Some 1)]>
             (<[GPT4 := mkEntry (Some 7) (Some 9)]> ∅)).

(** The replacement of one code unit in closed form: the characters of
    the class of [fullWidthSymbolsRegex] are moved down by 0xFEE0 to
    their ASCII counterpart, except the full-width macron U+FFE3, which
    becomes the tilde; the others stay. *)
Definition half (c : Z) : Z :=
  if fullWidthSymbolsRegex c then
    if c =? 0xffe3 then 126 else c - 0xfee0
  else c.

(** * Properties *)

(** ** The normaliser *)

Lemma property_Forall (P : list Z -> Prop) obj key v :
  Forall (fun kv => P kv.2) obj -> property key obj = Some v -> P v.
Proof.
  induction 1 as [|[k w] obj' Hw _ IH]; simpl; [discriminate|].
  destruct (k =? key); [intros [= <-]; exact Hw | exact IH].
Qed.

(** Every value of the mapping is a one-character string. *)
Lemma mapping_values_one_char :
  Forall (fun kv => length kv.2 = 1%nat) halfWidthSymbolsMapping.
Proof. repeat constructor. Qed.

(** No value of the mapping contains a character of the class. *)
Lemma mapping_values_outside_class :
  Forall (fun kv => Forall (fun h => fullWidthSymbolsRegex h = false) kv.2)
    halfWidthSymbolsMapping.
Proof. repeat constructor. Qed.

Lemma replacer_length c : length (replacer c) = 1%nat.
Proof.
  unfold replacer.
  destruct (property c halfWidthSymbolsMapping) as [[|x v]|] eqn:E; try reflexivity.
  exact (property_Forall (fun v => length v = 1%nat) _ _ _ mapping_values_one_char E).
Qed.

Lemma toHalfWidth_cons c text :
  toHalfWidth (c :: text)
  = (if fullWidthSymbolsRegex c then replacer c else [c]) ++ toHalfWidth text.
Proof. reflexivity. Qed.

Lemma toHalfWidth_app a b :
  toHalfWidth (a ++ b) = toHalfWidth a ++ toHalfWidth b.
Proof.
  induction a as [|c a IH]; [reflexivity|].
  rewrite <- app_comm_cons, !toHalfWidth_cons, IH. apply app_assoc.
Qed.

(** Text without a character of the class is left as it is. *)
Lemma toHalfWidth_outside_class text :
  Forall (fun h => fullWidthSymbolsRegex h = false) text -> toHalfWidth text = text.
Proof.
  induction 1 as [|c text Hc _ IH]; [reflexivity|].
  rewrite toHalfWidth_cons, Hc, IH. reflexivity.
Qed.

(** What replaces one code unit is itself left as it is. *)
Lemma toHalfWidth_piece c :
  let piece := if fullWidthSymbolsRegex c then replacer c else [c] in
  toHalfWidth piece = piece.
Proof.
  simpl. destruct (fullWidthSymbolsRegex c) eqn:Hc.
  - unfold replacer.
    destruct (property c halfWidthSymbolsMapping) as [[|x v]|] eqn:E.
    + rewrite toHalfWidth_cons, Hc. unfold replacer. rewrite E. reflexivity.
    + apply toHalfWidth_outside_class.
      exact (property_Forall _ _ _ _ mapping_values_outside_class E).
    + rewrite toHalfWidth_cons, Hc. unfold replacer. rewrite E. reflexivity.
  - rewrite toHalfWidth_cons, Hc. reflexivity.
Qed.

(** Normalised text is a fixed point of the normaliser. *)
Lemma toHalfWidth_fixed (text : list Z) :
  toHalfWidth (toHalfWidth text) = toHalfWidth text.
Proof.
  induction text as [|c text IH]; [reflexivity|].
  rewrite toHalfWidth_cons, toHalfWidth_app, toHalfWidth_piece, IH. reflexivity.
Qed.

(** C8. Normalisation is idempotent: normalising a normalised text
    changes nothing, [toHalfWidth (toHalfWidth text) = toHalfWidth text]
    for every text. *)
Theorem toHalfWidth_idempotent (text : list Z) :
  toHalfWidth (toHalfWidth text) = toHalfWidth text.
Proof.
  induction text as [|c text IH]; [reflexivity|].
  rewrite toHalfWidth_cons, toHalfWidth_app, IH.
  f_equal. apply toHalfWidth_piece.
Qed.

(** C10. Normalisation preserves the length in UTF-16 code units: each
    code unit of the class is replaced by a one-character string and the
    others are copied. *)
Theorem toHalfWidth_length (text : list Z) :
  length (toHalfWidth text) = length text.
Proof.
  induction text as [|c text IH]; [reflexivity|].
  rewrite toHalfWidth_cons, length_app, IH.
  destruct (fullWidthSymbolsRegex c); [rewrite replacer_length|]; reflexivity.
Qed.

(** The full-width example of the specification: "Ａ１％" becomes "A1%". *)
Example toHalfWidth_fullwidth_example :
  toHalfWidth [0xff21; 0xff11; 0xff05] = js "A1%".
Proof. reflexivity. Qed.

(** The keys of [halfWidthMap] are outside the class of the regular
    expression, so [toHalfWidth] copies them. *)
Lemma halfWidthMap_keys_untouched :
  Forall (fun kv => toHalfWidth [kv.1] = [kv.1]) halfWidthMap.
Proof. repeat constructor. Qed.

(** C5, the code at the failing input.  The text “test”, between a left
    and a right curly double quote, is returned unchanged and so is not
    the text "test" between straight double quotes that [halfWidthMap]
    would give. *)
Theorem toHalfWidth_curly_quotes_unchanged :
  toHalfWidth ([0x201c] ++ js "test" ++ [0x201d]) = [0x201c] ++ js "test" ++ [0x201d]
  /\ toHalfWidth ([0x201c] ++ js "test" ++ [0x201d]) <> [34] ++ js "test" ++ [34]
  /\ property 0x201c halfWidthMap = Some [34]
  /\ property 0x201d halfWidthMap = Some [34].
Proof. repeat split; try reflexivity. discriminate. Qed.

(** ** The serialiser *)

Lemma mapM_message_text roleSep (ms : list MessageInterface) :
  mapM (message_text roleSep) (Some <$> ms)
  = Ok (map (fun m => js "<|im_start|>" ++ role_text (role m) ++ roleSep
                      ++ toHalfWidth (content m) ++ js "<|im_end|>") ms).
Proof.
  induction ms as [|m ms IH]; [reflexivity|].
  rewrite fmap_cons. simpl. simpl in IH. rewrite IH. reflexivity.
Qed.

(** Joining the wrapped messages and then the open turn is one
    concatenation, every message followed by the separator. *)
Lemma join_join {A : Type} sep (f : A -> list Z) (a : A) (l : list A) (last : list Z) :
  join sep [ join sep (map f (a :: l)); last ]
  = (x ← a :: l; f x ++ sep) ++ last.
Proof.
  change (join sep [ join sep (map f (a :: l)); last ])
    with (join sep (map f (a :: l)) ++ sep ++ last).
  revert a. induction l as [|a' l IH]; intros a.
  - cbn [map join]. rewrite bind_cons, <- !app_assoc. reflexivity.
  - change (join sep (map f (a :: a' :: l)))
      with (f a ++ sep ++ join sep (map f (a' :: l))).
    rewrite bind_cons, <- !app_assoc. f_equal. f_equal. apply IH.
Qed.

Lemma serialized_Some (model : string) (m : MessageInterface) (ms : list MessageInterface) :
  serialized (Some <$> (m :: ms)) model = Ok (prompt model (m :: ms)).
Proof.
  unfold serialized. rewrite mapM_message_text.
  cbv beta iota zeta. unfold mbind at 1, result_bind. cbv beta iota.
  rewrite join_join. unfold prompt. f_equal. f_equal.
  apply list_bind_ext; [|reflexivity].
  intros x. unfold turn, msgSep_of, roleSep_of.
  rewrite <- !app_assoc. reflexivity.
Qed.

(** C6, as the code has it.  Under the model 'gpt-3.5-turbo' the prompt
    of a non-empty history uses a newline after the role and a newline
    after each message, and every message is wrapped: [<|im_start|>]
    before its role and [<|im_end|>] after its normalised content; the
    open assistant turn follows. *)
Theorem dialectA_serialized (m : MessageInterface) (ms : list MessageInterface) :
  serialized (Some <$> (m :: ms)) "gpt-3.5-turbo"
  = Ok ((x ← m :: ms;
           js "<|im_start|>" ++ role_text (role x) ++ LF
           ++ toHalfWidth (content x) ++ js "<|im_end|>" ++ LF)
        ++ js "<|im_start|>assistant" ++ LF).
Proof. rewrite serialized_Some. reflexivity. Qed.

(** The other dialect on the same shape of history: no separator between
    messages, [<|im_sep|>] after the role. *)
Example dialectB_serialized_example :
  serialized [Some (mkMessage user (js "hi"))] "gpt-4"
  = Ok (js "<|im_start|>user<|im_sep|>hi<|im_end|><|im_start|>assistant<|im_sep|>").
Proof. reflexivity. Qed.

(** C6, refuted as stated.  The one-message history [{user, "hi"}] is
    serialised with both markers around the message, which is not the
    marker-free text of [dialectA_spec]; the marker [<|im_end|>] occurs
    in the prompt although no content has it. *)
Lemma dialectA_markers_counterexample :
  let history := [mkMessage user (js "hi")] in
  let text := js "<|im_start|>user" ++ LF ++ js "hi<|im_end|>" ++ LF
              ++ js "<|im_start|>assistant" ++ LF in
  serialized (Some <$> history) "gpt-3.5-turbo" = Ok text
  /\ text <> dialectA_spec history
  /\ includes (js "<|im_end|>") text = true
  /\ includes (js "<|im_end|>") (js "hi") = false.
Proof. repeat split; try reflexivity. discriminate. Qed.

(** ** The counter *)

Section CounterFacts.

Variable encode : list Z -> list Z.
Variable model : string.

Lemma countTokens_Some (ms : list MessageInterface) :
  countTokens encode (Some <$> ms) model = Ok (tokens encode model ms).
Proof.
  destruct ms as [|m ms]; [reflexivity|].
  unfold countTokens, getChatGPTEncoding.
  rewrite serialized_Some. reflexivity.
Qed.

Lemma countTokens_one (m : MessageInterface) :
  countTokens encode [Some m] model = Ok (tokens encode model [m]).
Proof. exact (countTokens_Some [m]). Qed.

Lemma countTokens_undefined :
  countTokens encode [None] model = Throw TypeError.
Proof. reflexivity. Qed.

Lemma tokens_nonneg ms : 0 <= tokens encode model ms.
Proof. destruct ms; simpl; lia. Qed.

Lemma total_nonneg ms : 0 <= total encode model ms.
Proof.
  induction ms as [|m ms IH]; simpl; [lia|].
  pose proof (tokens_nonneg [m]). simpl in *. lia.
Qed.

Lemma total_cons m ms :
  total encode model (m :: ms) = tokens encode model [m] + total encode model ms.
Proof. reflexivity. Qed.

Lemma total_app a b :
  total encode model (a ++ b) = total encode model a + total encode model b.
Proof.
  induction a as [|m a IH]; [reflexivity|].
  rewrite <- app_comm_cons. cbn [total foldr]. fold (total encode model (a ++ b)).
  fold (total encode model a). rewrite IH. lia.
Qed.

Lemma bind_Ok {A B : Type} (a : A) (k : A -> result B) : Ok a ≫= k = k a.
Proof. reflexivity. Qed.

Lemma spread_Some (m : MessageInterface) : spread (Some m) = Ok m.
Proof. destruct m; reflexivity. Qed.

(** The loop on indices is the recursion on the messages it visits. *)
Lemma scan_accept messages limit i tokenCount accepted :
  (i < length messages)%nat ->
  scan encode messages limit model i tokenCount accepted
  = Ok (accept encode model limit (reverse (take i (drop 1 messages)))
          tokenCount accepted).
Proof.
  revert tokenCount accepted.
  induction i as [|i IH]; intros tokenCount accepted Hi; [reflexivity|].
  destruct (lookup_lt_is_Some_2 messages (S i) Hi) as [m Hm].
  rewrite (take_S_r _ _ m) by (rewrite lookup_drop; exact Hm).
  rewrite reverse_snoc.
  cbn [scan accept]. rewrite Hm, countTokens_one.
  unfold mbind at 1, result_bind. cbv beta iota.
  destruct (tokens encode model [m] + tokenCount >? limit); [reflexivity|].
  rewrite spread_Some. unfold mbind at 1, result_bind. cbv beta iota.
  apply IH. lia.
Qed.

(** The selector on a non-empty history. *)
Lemma limitMessageTokens_cons first rest limit :
  limitMessageTokens encode (first :: rest) limit model
  = Ok (normalised <$> selection encode model limit first rest).
Proof.
  unfold limitMessageTokens, selection.
  cbn [lookup list_lookup]. cbv zeta.
  rewrite countTokens_one.
  assert (Hscan : forall tc,
    scan encode (first :: rest) limit model (length (first :: rest) - 1) tc []
    = Ok (accept encode model limit (reverse rest) tc [])).
  { intros tc. rewrite scan_accept by (simpl; lia).
    replace (length (first :: rest) - 1)%nat with (length rest) by (simpl; lia).
    change (drop 1 (first :: rest)) with rest.
    rewrite take_ge by lia. reflexivity. }
  destruct (is_system (role first)) eqn:Hsys; cbn [andb negb].
  - rewrite bind_Ok.
    destruct (tokens encode model [first] <? limit) eqn:Hfit;
      rewrite bind_Ok; cbv beta iota; rewrite ?Z.add_0_l, Hscan, bind_Ok;
      destruct (accept encode model limit (reverse rest) _ []) as [tc acc].
    + rewrite spread_Some, !bind_Ok. reflexivity.
    + rewrite bind_Ok. reflexivity.
  - rewrite bind_Ok. cbv beta iota. rewrite Hscan, bind_Ok.
    destruct (accept encode model limit (reverse rest) 0 []) as [tc acc].
    rewrite bind_Ok.
    destruct (tokens encode model [first] + tc <? limit);
      rewrite ?spread_Some, !bind_Ok; reflexivity.
Qed.

End CounterFacts.

(** ** The selector *)

(** C3, the code at the failing input.  On the empty history the loop
    does not run, the first message is not a system message, and the
    branch for a non-system first message counts [[messages[0]]], an
    array of length 1 holding [undefined]: the call throws instead of
    returning the empty list. *)
Theorem limitMessageTokens_empty_throws
  (encode : list Z -> list Z) (limit : Z) (model : string) :
  limitMessageTokens encode [] limit model = Throw TypeError
  /\ limitMessageTokens encode [] limit model <> Ok [].
Proof. split; [reflexivity | discriminate]. Qed.

(** C2, as the code has it.  When the system message and the three
    later messages all fit, the loop accepts [U1; A1; U2] and the system
    message is spliced three slots from the end of these three, at index
    0: the result is [[S; U1; A1; U2]]. *)
Theorem system_message_spliced_at_head
  (encode : list Z -> list Z) (limit : Z) (model : string) (cS cU1 cA1 cU2 : Z) :
  countTokens encode [Some msgS] model = Ok cS ->
  countTokens encode [Some msgU1] model = Ok cU1 ->
  countTokens encode [Some msgA1] model = Ok cA1 ->
  countTokens encode [Some msgU2] model = Ok cU2 ->
  cS < limit ->
  cS + cU2 + cA1 + cU1 <= limit ->
  limitMessageTokens encode [msgS; msgU1; msgA1; msgU2] limit model
  = Ok [msgS; msgU1; msgA1; msgU2].
Proof.
  rewrite !countTokens_one, limitMessageTokens_cons. unfold selection.
  cbn [role msgS is_system andb].
  change (reverse [msgU1; msgA1; msgU2]) with [msgU2; msgA1; msgU1].
  cbn [accept].
  generalize (tokens_nonneg encode model [msgU1]) (tokens_nonneg encode model [msgA1])
    (tokens_nonneg encode model [msgU2]).
  generalize (tokens encode model [msgS]) (tokens encode model [msgU1])
    (tokens encode model [msgA1]) (tokens encode model [msgU2]).
  intros tS tU1 tA1 tU2 ? ? ? [= ->] [= ->] [= ->] [= ->] Hfit Hall.
  replace (cS <? limit) with true by (symmetry; apply Z.ltb_lt; lia).
  replace (cU2 + cS >? limit) with false
    by (symmetry; rewrite Z.gtb_ltb; apply Z.ltb_ge; lia).
  replace (cA1 + (cS + cU2) >? limit) with false
    by (symmetry; rewrite Z.gtb_ltb; apply Z.ltb_ge; lia).
  replace (cU1 + (cS + cU2 + cA1) >? limit) with false
    by (symmetry; rewrite Z.gtb_ltb; apply Z.ltb_ge; lia).
  reflexivity.
Qed.

(** C2 as the code has it, with the small encoder: the four messages
    count 31, 30, 35 and 30 tokens and the limit is 4096. *)
Lemma system_message_spliced_at_head_witness :
  limitMessageTokens toy_encode [msgS; msgU1; msgA1; msgU2] 4096 GPT35
  = Ok [msgS; msgU1; msgA1; msgU2].
Proof.
  apply (system_message_spliced_at_head toy_encode 4096 GPT35 31 30 35 30);
    try (vm_compute; reflexivity); lia.
Defined.

(** C2, refuted as stated.  With the small encoder and the limit 4096
    every message is accepted, and the result has the system message at
    index 0, not at index 1. *)
Lemma system_message_index_counterexample :
  limitMessageTokens toy_encode [msgS; msgU1; msgA1; msgU2] 4096 GPT35
  = Ok [msgS; msgU1; msgA1; msgU2]
  /\ limitMessageTokens toy_encode [msgS; msgU1; msgA1; msgU2] 4096 GPT35
     <> Ok [msgU1; msgS; msgA1; msgU2].
Proof. split; [vm_compute; reflexivity | vm_compute; discriminate]. Qed.

Lemma splice_insert_minus_3 {A : Type} (x : A) (l : list A) :
  splice_insert (-3) x l
  = take (length l - 3) l ++ x :: drop (length l - 3) l.
Proof.
  unfold splice_insert. cbv zeta.
  change (-3 <? 0) with true. cbv iota.
  replace (Z.to_nat (Z.max (Z.of_nat (length l) + -3) 0))
    with (length l - 3)%nat by lia.
  reflexivity.
Qed.

Section ScanFacts.

Variable encode : list Z -> list Z.
Variable model : string.
Variable limit : Z.

(** The scan accepts a prefix of the pending messages (latest first):
    the accepted ones fit, and the first one left out, if any, would
    exceed the limit. *)
Lemma accept_spec pending tokenCount accepted :
  exists k,
    (k <= length pending)%nat
    /\ accept encode model limit pending tokenCount accepted
       = (tokenCount + total encode model (take k pending),
          reverse (take k pending) ++ accepted)
    /\ (tokenCount <= limit -> tokenCount + total encode model (take k pending) <= limit)
    /\ (forall m, pending !! k = Some m ->
          limit < tokens encode model [m]
                  + (tokenCount + total encode model (take k pending))).
Proof.
  revert tokenCount accepted.
  induction pending as [|m pending IH]; intros tokenCount accepted.
  - exists 0%nat. cbn [take total foldr lookup list_lookup length reverse rev_append app].
      split; [lia|]. split; [f_equal; lia|]. split; [lia | discriminate].
  - cbn [accept].
    destruct (tokens encode model [m] + tokenCount >? limit) eqn:Hcmp.
    + exists 0%nat. cbn [take total foldr lookup list_lookup length reverse rev_append app].
      split; [lia|]. split; [f_equal; lia|]. split; [lia|].
      intros m' [= <-]. rewrite Z.gtb_ltb in Hcmp. apply Z.ltb_lt in Hcmp. lia.
    + rewrite Z.gtb_ltb in Hcmp. apply Z.ltb_ge in Hcmp.
      destruct (IH (tokenCount + tokens encode model [m]) (m :: accepted))
        as (k & Hk & Heq & Hfit & Hnext).
      exists (S k). cbn [take length lookup list_lookup].
      rewrite reverse_cons, <- app_assoc. cbn [total foldr app].
      fold (total encode model (take k pending)).
      split; [lia|]. split; [rewrite Heq; f_equal; lia|]. split; [lia|].
      intros m' Hm'. specialize (Hnext m' Hm'). lia.
Qed.

Lemma total_reverse ms :
  total encode model (reverse ms) = total encode model ms.
Proof.
  induction ms as [|m ms IH]; [reflexivity|].
  rewrite reverse_cons, total_app, IH, !total_cons. cbn [total foldr]. lia.
Qed.

(** The same in chronological terms: the accepted messages are the
    history without its first [n] later messages dropped, a suffix. *)
Lemma accept_reverse rest tokenCount :
  exists n,
    (n <= length rest)%nat
    /\ accept encode model limit (reverse rest) tokenCount []
       = (tokenCount + total encode model (drop n rest), drop n rest)
    /\ (tokenCount <= limit -> tokenCount + total encode model (drop n rest) <= limit)
    /\ (forall i m, n = S i -> rest !! i = Some m ->
          limit < tokens encode model [m]
                  + (tokenCount + total encode model (drop n rest))).
Proof.
  destruct (accept_spec (reverse rest) tokenCount [])
    as (k & Hk & Heq & Hfit & Hnext).
  rewrite length_reverse in Hk.
  assert (Hrev : reverse (take k (reverse rest)) = drop (length rest - k) rest).
  { rewrite take_reverse, reverse_involutive. reflexivity. }
  assert (Htot : total encode model (take k (reverse rest))
                 = total encode model (drop (length rest - k) rest)).
  { rewrite <- Hrev. symmetry. apply total_reverse. }
  exists (length rest - k)%nat. rewrite Htot in *.
  rewrite Hrev, app_nil_r in Heq.
  split; [lia|]. split; [exact Heq|]. split; [exact Hfit|].
  intros i m Hn Hi. apply Hnext.
  rewrite reverse_lookup by lia.
  replace (length rest - S k)%nat with i by lia. exact Hi.
Qed.

(** X21.  The loop run on a history [first :: rest] keeps the longest
    suffix of [rest] that fits: the messages kept add up to at most the
    limit, and the message just before them, if any, would exceed it. *)
Lemma scan_longest_fitting_suffix first rest tokenCount :
  exists n,
    (n <= length rest)%nat
    /\ scan encode (first :: rest) limit model (length rest) tokenCount []
       = Ok (tokenCount + total encode model (drop n rest), drop n rest)
    /\ (tokenCount <= limit -> tokenCount + total encode model (drop n rest) <= limit)
    /\ (forall i m, n = S i -> rest !! i = Some m ->
          limit < tokens encode model [m]
                  + (tokenCount + total encode model (drop n rest))).
Proof.
  destruct (accept_reverse rest tokenCount) as (n & Hn & Heq & Hfit & Hnext).
  exists n. split; [exact Hn|]. split; [|split; assumption].
  rewrite scan_accept by (simpl; lia).
  change (drop 1 (first :: rest)) with rest.
  rewrite take_ge by lia. rewrite Heq. reflexivity.
Qed.

(** C4, as the code has it.  The output is made of normalised copies of
    a contiguous suffix [kept] of the history after its first message,
    in order, into which the first message may be inserted: at the head
    when it is not a system message, three slots from the end of [kept]
    when it is one. *)
Theorem selection_shape (first : MessageInterface) (rest : list MessageInterface) :
  exists kept,
    kept `suffix_of` rest
    /\ (limitMessageTokens encode (first :: rest) limit model
        = Ok (normalised <$> kept)
        \/ (role first <> system
            /\ limitMessageTokens encode (first :: rest) limit model
               = Ok (normalised <$> first :: kept))
        \/ (role first = system
            /\ limitMessageTokens encode (first :: rest) limit model
               = Ok (normalised <$>
                       take (length kept - 3) kept ++ first :: drop (length kept - 3) kept))).
Proof.
  rewrite limitMessageTokens_cons. unfold selection.
  destruct (is_system (role first)) eqn:Hsys; cbn [andb].
  - destruct (tokens encode model [first] <? limit).
    + destruct (accept_reverse rest (tokens encode model [first])) as (n & _ & Heq & _).
      rewrite Heq. exists (drop n rest). split; [apply suffix_drop|].
      right; right. split; [destruct (role first); done|].
      rewrite splice_insert_minus_3. reflexivity.
    + destruct (accept_reverse rest 0) as (n & _ & Heq & _).
      rewrite Heq. exists (drop n rest). split; [apply suffix_drop|].
      left. reflexivity.
  - destruct (accept_reverse rest 0) as (n & _ & Heq & _).
    rewrite Heq. exists (drop n rest). split; [apply suffix_drop|].
    destruct (_ <? limit).
    + right; left. split; [intros E; rewrite E in Hsys; discriminate | reflexivity].
    + left. reflexivity.
Qed.

End ScanFacts.

(** C4, refuted as stated.  With five messages accepted the system
    message lands at index 1, after a later message: the output is
    neither a suffix of the history nor the system message followed by
    one. *)
Lemma suffix_invariant_counterexample :
  let history := [msgS; msgU1; msgA1; msgU2; msgA2] in
  let out := [msgU1; msgS; msgA1; msgU2; msgA2] in
  limitMessageTokens toy_encode history 4096 GPT35 = Ok out
  /\ ~ suffix_with_system_prefix history out.
Proof.
  cbv zeta. split; [vm_compute; reflexivity|].
  intros (kept & Hsuffix & [Hout | (first & _ & _ & Hout)]).
  - subst kept. apply suffix_length_eq in Hsuffix; [discriminate | reflexivity].
  - apply (f_equal (@tail _)) in Hout. cbn [tail] in Hout. subst kept.
    destruct Hsuffix as [front Hfront].
    assert (Hlen : length front = 1%nat).
    { apply (f_equal length) in Hfront. rewrite length_app in Hfront.
      cbn in Hfront. lia. }
    destruct front as [|x [|y front]]; try discriminate Hlen.
    vm_compute in Hfront. discriminate Hfront.
Qed.

(** A first message that is not a system message is put at the head
    whenever it fits, also when the scan has stopped before reaching
    it: the output then skips the messages in between. *)
Example first_message_skips_gap :
  let long := mkMessage assistant (js "a long answer that does not fit the budget") in
  limitMessageTokens toy_encode [msgU1; long; msgU2] 61 GPT35 = Ok [msgU1; msgU2].
Proof. vm_compute. reflexivity. Qed.

(** One turn of the loop and the two checks on the first message, each
    on the state it is given. *)
Lemma budget_comparisons_step (encode : list Z -> list Z) (limit : Z) (model : string) :
  (forall messages i m tokenCount limitedMessages count,
     messages !! S i = Some m ->
     countTokens encode [Some m] model = Ok count ->
     (count + tokenCount <= limit ->
      scan encode messages limit model (S i) tokenCount limitedMessages
      = scan encode messages limit model i (tokenCount + count) (m :: limitedMessages))
     /\ (limit < count + tokenCount ->
         scan encode messages limit model (S i) tokenCount limitedMessages
         = Ok (tokenCount, limitedMessages)))
  /\ (forall first rest count tokenCount limitedMessages,
        role first = system ->
        countTokens encode [Some first] model = Ok count ->
        (count < limit ->
         scan encode (first :: rest) limit model (length rest) count []
         = Ok (tokenCount, limitedMessages) ->
         limitMessageTokens encode (first :: rest) limit model
         = Ok (normalised <$> splice_insert (-3) first limitedMessages))
        /\ (limit <= count ->
            scan encode (first :: rest) limit model (length rest) 0 []
            = Ok (tokenCount, limitedMessages) ->
            limitMessageTokens encode (first :: rest) limit model
            = Ok (normalised <$> limitedMessages)))
  /\ (forall first rest count tokenCount limitedMessages,
        role first <> system ->
        countTokens encode [Some first] model = Ok count ->
        scan encode (first :: rest) limit model (length rest) 0 []
        = Ok (tokenCount, limitedMessages) ->
        (count + tokenCount < limit ->
         limitMessageTokens encode (first :: rest) limit model
         = Ok (normalised <$> first :: limitedMessages))
        /\ (limit <= count + tokenCount ->
            limitMessageTokens encode (first :: rest) limit model
            = Ok (normalised <$> limitedMessages))).
Proof.
  assert (Hscan : forall first rest tc,
    scan encode (first :: rest) limit model (length rest) tc []
    = Ok (accept encode model limit (reverse rest) tc [])).
  { intros first rest tc. rewrite scan_accept by (simpl; lia).
    change (drop 1 (first :: rest)) with rest.
    rewrite take_ge by lia. reflexivity. }
  split; [|split].
  - intros messages i m tokenCount limitedMessages count Hm Hcount.
    cbn [scan]. rewrite Hm, Hcount, bind_Ok, spread_Some, bind_Ok, Z.gtb_ltb.
    split; intros Hcmp.
    + replace (limit <? count + tokenCount) with false
        by (symmetry; apply Z.ltb_ge; lia). reflexivity.
    + replace (limit <? count + tokenCount) with true
        by (symmetry; apply Z.ltb_lt; lia). reflexivity.
  - intros first rest count tokenCount limitedMessages Hrole.
    rewrite countTokens_one, limitMessageTokens_cons, !Hscan.
    unfold selection. rewrite Hrole. cbn [is_system andb].
    generalize (tokens encode model [first]).
    intros ? [= ->]. split; intros Hcmp [= Haccept].
    + replace (count <? limit) with true by (symmetry; apply Z.ltb_lt; lia).
      rewrite Haccept. reflexivity.
    + replace (count <? limit) with false by (symmetry; apply Z.ltb_ge; lia).
      rewrite Haccept. reflexivity.
  - intros first rest count tokenCount limitedMessages Hrole.
    rewrite countTokens_one, limitMessageTokens_cons, !Hscan.
    unfold selection.
    replace (is_system (role first)) with false
      by (destruct (role first); [reflexivity | reflexivity | contradiction]).
    cbn [andb]. generalize (tokens encode model [first]).
    intros ? [= ->] [= Haccept]. rewrite Haccept.
    split; intros Hcmp.
    + replace (count + tokenCount <? limit) with true
        by (symmetry; apply Z.ltb_lt; lia). reflexivity.
    + replace (count + tokenCount <? limit) with false
        by (symmetry; apply Z.ltb_ge; lia). reflexivity.
Qed.

Section Comparisons.

Variable encode : list Z -> list Z.
Variable model : string.
Variable limit : Z.

(** The scan accepts a prefix of the pending messages: each accepted
    message passed the test against the running total of the messages
    accepted before it, and the first one left out failed it. *)
Lemma accept_each pending tokenCount accepted :
  exists k,
    (k <= length pending)%nat
    /\ accept encode model limit pending tokenCount accepted
       = (tokenCount + total encode model (take k pending),
          reverse (take k pending) ++ accepted)
    /\ (forall j m, (j < k)%nat -> pending !! j = Some m ->
          tokens encode model [m]
          + (tokenCount + total encode model (take j pending)) <= limit)
    /\ (forall m, pending !! k = Some m ->
          limit < tokens encode model [m]
                  + (tokenCount + total encode model (take k pending))).
Proof.
  revert tokenCount accepted.
  induction pending as [|m pending IH]; intros tokenCount accepted.
  - exists 0%nat. cbn [take total foldr lookup list_lookup length reverse rev_append app].
    split; [lia|]. split; [f_equal; lia|]. split; [intros; lia | discriminate].
  - cbn [accept].
    destruct (tokens encode model [m] + tokenCount >? limit) eqn:Hcmp;
      rewrite Z.gtb_ltb in Hcmp.
    + apply Z.ltb_lt in Hcmp. exists 0%nat.
      cbn [take total foldr lookup list_lookup length reverse rev_append app].
      split; [lia|]. split; [f_equal; lia|]. split; [intros; lia|].
      intros m' [= <-]. lia.
    + apply Z.ltb_ge in Hcmp.
      destruct (IH (tokenCount + tokens encode model [m]) (m :: accepted))
        as (k & Hk & Heq & Heach & Hnext).
      exists (S k). cbn [length]. split; [lia|].
      split; [|split].
      * rewrite Heq. cbn [take]. rewrite total_cons, reverse_cons, <- app_assoc.
        f_equal. lia.
      * intros [|j] m' Hj Hm'.
        -- injection Hm' as <-. cbn [take total foldr]. lia.
        -- cbn [take]. rewrite total_cons.
           specialize (Heach j m' ltac:(lia) Hm'). lia.
      * intros m' Hm'. cbn [take]. rewrite total_cons.
        specialize (Hnext m' Hm'). lia.
Qed.

(** The same along the history: the messages from index [n] on are the
    accepted ones. *)
Lemma accept_each_reverse rest tokenCount :
  exists n,
    (n <= length rest)%nat
    /\ accept encode model limit (reverse rest) tokenCount []
       = (tokenCount + total encode model (drop n rest), drop n rest)
    /\ (forall j m, (n <= j)%nat -> rest !! j = Some m ->
          tokens encode model [m]
          + (tokenCount + total encode model (drop (S j) rest)) <= limit)
    /\ (forall i m, n = S i -> rest !! i = Some m ->
          limit < tokens encode model [m]
                  + (tokenCount + total encode model (drop n rest))).
Proof.
  destruct (accept_each (reverse rest) tokenCount [])
    as (k & Hk & Heq & Heach & Hnext).
  rewrite length_reverse in Hk.
  assert (Htake : forall j, (j <= length rest)%nat ->
            total encode model (take j (reverse rest))
            = total encode model (drop (length rest - j) rest)).
  { intros j Hj. rewrite take_reverse, total_reverse. reflexivity. }
  exists (length rest - k)%nat.
  split; [lia|]. split; [|split].
  - rewrite Heq, Htake, take_reverse, reverse_involutive, app_nil_r by lia.
    reflexivity.
  - intros j m Hj Hm.
    pose proof (lookup_lt_Some _ _ _ Hm) as Hlt.
    specialize (Heach (length rest - S j)%nat m ltac:(lia)).
    rewrite reverse_lookup, Htake in Heach by lia.
    replace (length rest - S (length rest - S j))%nat with j in Heach by lia.
    replace (length rest - (length rest - S j))%nat with (S j) in Heach by lia.
    exact (Heach Hm).
  - intros i m Hn Hm.
    pose proof (lookup_lt_Some _ _ _ Hm) as Hlt.
    specialize (Hnext m). rewrite reverse_lookup, Htake in Hnext by lia.
    replace (length rest - S k)%nat with i in Hnext by lia.
    exact (Hnext Hm).
Qed.

End Comparisons.

(** C7.  The budget comparisons, on the whole selector.  On a history
    [first :: rest] the loop starts from the count of the system message
    when that count is strictly below the limit, and from 0 otherwise (a
    system message whose count equals the limit is dropped).  It keeps
    the messages of [rest] from some index [n] on: each of them was
    accepted because its count plus the running total, the start plus
    the counts of the kept messages after it, was at most the limit
    (reaching the limit exactly is accepted), and the message just
    before them, if any, would exceed the limit.  A first message that
    is not a system message is put at the head exactly when its count
    plus the counts of all kept messages is strictly below the limit. *)
Theorem budget_comparisons
  (encode : list Z -> list Z) (limit : Z) (model : string)
  (first : MessageInterface) (rest : list MessageInterface) :
  exists n start,
    (n <= length rest)%nat
    /\ (forall m, countTokens encode [Some m] model = Ok (tokens encode model [m]))
    /\ (role first = system /\ tokens encode model [first] < limit
          /\ start = tokens encode model [first]
        \/ (role first <> system \/ limit <= tokens encode model [first])
           /\ start = 0)
    /\ (forall j m, (n <= j)%nat -> rest !! j = Some m ->
          tokens encode model [m]
          + (start + total encode model (drop (S j) rest)) <= limit)
    /\ (forall i m, n = S i -> rest !! i = Some m ->
          limit < tokens encode model [m]
                  + (start + total encode model (drop n rest)))
    /\ (role first = system -> tokens encode model [first] < limit ->
        limitMessageTokens encode (first :: rest) limit model
        = Ok (normalised <$> splice_insert (-3) first (drop n rest)))
    /\ (role first = system -> limit <= tokens encode model [first] ->
        limitMessageTokens encode (first :: rest) limit model
        = Ok (normalised <$> drop n rest))
    /\ (role first <> system ->
        tokens encode model [first] + total encode model (drop n rest) < limit ->
        limitMessageTokens encode (first :: rest) limit model
        = Ok (normalised <$> first :: drop n rest))
    /\ (role first <> system ->
        limit <= tokens encode model [first] + total encode model (drop n rest) ->
        limitMessageTokens encode (first :: rest) limit model
        = Ok (normalised <$> drop n rest)).
Proof.
  rewrite limitMessageTokens_cons. unfold selection.
  assert (Hrole : is_system (role first) = true <-> role first = system)
    by (destruct (role first); split; (reflexivity || discriminate)).
  destruct (is_system (role first)) eqn:Hsys;
    [destruct (tokens encode model [first] <? limit) eqn:Hfit|]; cbn [andb].
  - apply Z.ltb_lt in Hfit.
    destruct (accept_each_reverse encode model limit rest (tokens encode model [first]))
      as (n & Hn & -> & Heach & Hnext).
    exists n, (tokens encode model [first]).
    split; [exact Hn|]. split; [apply countTokens_one|].
    split; [left; split; [apply Hrole; reflexivity | split; [exact Hfit | reflexivity]]|].
    split; [exact Heach|]. split; [exact Hnext|].
    split; [reflexivity|]. split; [intros; lia|].
    split; intros Hno; exfalso; apply Hno, Hrole; reflexivity.
  - apply Z.ltb_ge in Hfit.
    destruct (accept_each_reverse encode model limit rest 0)
      as (n & Hn & -> & Heach & Hnext).
    exists n, 0.
    split; [exact Hn|]. split; [apply countTokens_one|].
    split; [right; split; [right; exact Hfit | reflexivity]|].
    split; [exact Heach|]. split; [exact Hnext|].
    split; [intros; lia|]. split; [reflexivity|].
    split; intros Hno; exfalso; apply Hno, Hrole; reflexivity.
  - assert (Hnot : role first <> system)
      by (intros E; apply Hrole in E; discriminate).
    destruct (accept_each_reverse encode model limit rest 0)
      as (n & Hn & -> & Heach & Hnext).
    exists n, 0.
    split; [exact Hn|]. split; [apply countTokens_one|].
    split; [right; split; [left; exact Hnot | reflexivity]|].
    split; [exact Heach|]. split; [exact Hnext|].
    split; [intros; contradiction|]. split; [intros; contradiction|].
    rewrite Z.add_0_l.
    split; intros _ Hcmp.
    + replace (_ <? limit) with true by (symmetry; apply Z.ltb_lt; lia). reflexivity.
    + replace (_ <? limit) with false by (symmetry; apply Z.ltb_ge; lia). reflexivity.
Qed.

(** C7 at the boundaries, with the small encoder, where [msgS] counts 31
    tokens and [msgU1], [msgU2] count 30 each.  The system message is
    dropped at the limit 31 and retained at 32.  On [[msgU1; msgU2]] the
    scan accepts [msgU2] at the limit 30, which it reaches exactly; the
    first message is left out at the limit 60, which the two counts
    reach exactly, and is added at 61. *)
Lemma budget_comparisons_witness :
  limitMessageTokens toy_encode [msgS] 31 GPT35 = Ok []
  /\ limitMessageTokens toy_encode [msgS] 32 GPT35 = Ok [msgS]
  /\ limitMessageTokens toy_encode [msgU1; msgU2] 30 GPT35 = Ok [msgU2]
  /\ limitMessageTokens toy_encode [msgU1; msgU2] 60 GPT35 = Ok [msgU2]
  /\ limitMessageTokens toy_encode [msgU1; msgU2] 61 GPT35 = Ok [msgU1; msgU2].
Proof.
  assert (HS : tokens toy_encode GPT35 [msgS] = 31) by (vm_compute; reflexivity).
  assert (HU1 : tokens toy_encode GPT35 [msgU1] = 30) by (vm_compute; reflexivity).
  assert (HU2 : tokens toy_encode GPT35 [msgU2] = 30) by (vm_compute; reflexivity).
  assert (Hkept : total toy_encode GPT35 [msgU2] = 30) by (vm_compute; reflexivity).
  assert (Hnone : total toy_encode GPT35 [] = 0) by reflexivity.
  assert (Hstart : forall limit start,
            role msgU1 = system /\ tokens toy_encode GPT35 [msgU1] < limit
              /\ start = tokens toy_encode GPT35 [msgU1]
            \/ (role msgU1 <> system \/ limit <= tokens toy_encode GPT35 [msgU1])
               /\ start = 0 ->
            start = 0).
  { intros limit start [(Hrole & _) | (_ & Hzero)]; [discriminate Hrole | exact Hzero]. }
  split; [|split; [|split; [|split]]].
  - destruct (budget_comparisons toy_encode 31 GPT35 msgS [])
      as (n & start & Hn & _ & _ & _ & _ & _ & Hdrop & _).
    destruct n as [|n]; [|cbn [length] in Hn; lia].
    apply Hdrop; [reflexivity | rewrite HS; lia].
  - destruct (budget_comparisons toy_encode 32 GPT35 msgS [])
      as (n & start & Hn & _ & _ & _ & _ & Hretain & _).
    destruct n as [|n]; [|cbn [length] in Hn; lia].
    apply Hretain; [reflexivity | rewrite HS; lia].
  - destruct (budget_comparisons toy_encode 30 GPT35 msgU1 [msgU2])
      as (n & start & Hn & _ & Hs & _ & Hnext & _ & _ & _ & Hleave).
    apply Hstart in Hs. subst start.
    destruct n as [|[|n]]; [| |cbn [length] in Hn; lia].
    + apply Hleave; [discriminate|]. cbn [drop]. rewrite HU1, Hkept. lia.
    + specialize (Hnext 0%nat msgU2 eq_refl eq_refl).
      cbn [drop] in Hnext. rewrite HU2, Hnone in Hnext. lia.
  - destruct (budget_comparisons toy_encode 60 GPT35 msgU1 [msgU2])
      as (n & start & Hn & _ & Hs & _ & Hnext & _ & _ & _ & Hleave).
    apply Hstart in Hs. subst start.
    destruct n as [|[|n]]; [| |cbn [length] in Hn; lia].
    + apply Hleave; [discriminate|]. cbn [drop]. rewrite HU1, Hkept. lia.
    + specialize (Hnext 0%nat msgU2 eq_refl eq_refl).
      cbn [drop] in Hnext. rewrite HU2, Hnone in Hnext. lia.
  - destruct (budget_comparisons toy_encode 61 GPT35 msgU1 [msgU2])
      as (n & start & Hn & _ & Hs & _ & Hnext & _ & _ & Hadd & _).
    apply Hstart in Hs. subst start.
    destruct n as [|[|n]]; [| |cbn [length] in Hn; lia].
    + apply Hadd; [discriminate|]. cbn [drop]. rewrite HU1, Hkept. lia.
    + specialize (Hnext 0%nat msgU2 eq_refl eq_refl).
      cbn [drop] in Hnext. rewrite HU2, Hnone in Hnext. lia.
Defined.

(** ** The budget *)

Lemma tokens_normalised encode model (ms : list MessageInterface) :
  tokens encode model (normalised <$> ms) = tokens encode model ms.
Proof.
  assert (Hprompt : prompt model (normalised <$> ms) = prompt model ms).
  { unfold prompt. f_equal.
    induction ms as [|m ms IH]; [reflexivity|].
    rewrite fmap_cons, !bind_cons, IH. f_equal.
    unfold turn, normalised. cbn [role content].
    rewrite toHalfWidth_fixed. reflexivity. }
  destruct ms as [|m ms]; [reflexivity|].
  rewrite fmap_cons in *. unfold tokens. rewrite Hprompt. reflexivity.
Qed.

Section Budget.

Variable encode : list Z -> list Z.

(** The encoder treats the marker [<|im_start|>] as the reserved token
    100264 it was constructed with: the text before and the text after
    an occurrence are encoded on their own. *)
Hypothesis encode_im_start : forall a b,
  encode (a ++ js "<|im_start|>" ++ b) = encode a ++ 100264 :: encode b.

Variable model : string.

Lemma length_encode_turns ms x :
  length (encode (x ++ (m ← ms; js "<|im_start|>" ++ turn model m)
                    ++ js "<|im_start|>" ++ open_turn model))
  = (length (encode x) + turn_tokens encode model ms + S (length (encode (open_turn model))))%nat.
Proof.
  revert x. induction ms as [|m ms IH]; intros x.
  - change (encode (x ++ _))
      with (encode (x ++ js "<|im_start|>" ++ open_turn model)).
    rewrite encode_im_start, length_app. cbn [length turn_tokens foldr]. lia.
  - rewrite bind_cons.
    replace (x ++ ((js "<|im_start|>" ++ turn model m)
                   ++ (m0 ← ms; js "<|im_start|>" ++ turn model m0))
               ++ js "<|im_start|>" ++ open_turn model)
      with (x ++ js "<|im_start|>"
              ++ (turn model m ++ (m0 ← ms; js "<|im_start|>" ++ turn model m0)
                  ++ js "<|im_start|>" ++ open_turn model))
      by (rewrite <- !app_assoc; reflexivity).
    rewrite encode_im_start, length_app. cbn [length].
    rewrite IH. cbn [turn_tokens foldr]. fold (turn_tokens encode model ms). lia.
Qed.

Lemma tokens_cons m ms :
  tokens encode model (m :: ms)
  = Z.of_nat (length (encode []) + turn_tokens encode model (m :: ms)
              + S (length (encode (open_turn model)))).
Proof.
  unfold tokens, prompt.
  rewrite <- (length_encode_turns (m :: ms) []). reflexivity.
Qed.

(** Counting a history at once never gives more than adding up the
    counts of its messages. *)
Lemma tokens_le_total ms : tokens encode model ms <= total encode model ms.
Proof.
  induction ms as [|m ms IH]; [reflexivity|].
  rewrite total_cons.
  destruct ms as [|m' ms]; [cbn [total foldr]; lia|].
  rewrite tokens_cons in IH. rewrite !tokens_cons.
  cbn [turn_tokens foldr] in *. lia.
Qed.

Lemma total_splice_insert (x : MessageInterface) ms :
  total encode model (splice_insert (-3) x ms)
  = tokens encode model [x] + total encode model ms.
Proof.
  rewrite splice_insert_minus_3, total_app, total_cons.
  pose proof (total_app encode model (take (length ms - 3) ms) (drop (length ms - 3) ms))
    as Hsplit.
  rewrite take_drop in Hsplit. lia.
Qed.

(** The messages chosen add up to at most the limit. *)
Lemma total_selection limit first rest :
  0 <= limit -> total encode model (selection encode model limit first rest) <= limit.
Proof.
  intros Hlimit. unfold selection.
  destruct (is_system (role first) && (tokens encode model [first] <? limit)) eqn:Hretain;
    cbv iota.
  - apply andb_true_iff in Hretain as [_ Hfit]. apply Z.ltb_lt in Hfit.
    destruct (accept_reverse encode model limit rest (tokens encode model [first]))
      as (n & _ & -> & Hle & _).
    rewrite total_splice_insert. lia.
  - destruct (accept_reverse encode model limit rest 0) as (n & _ & -> & Hle & _).
    clear Hretain. destruct (is_system (role first)); [lia|].
    destruct (_ <? limit) eqn:Hfirst; [|lia].
    apply Z.ltb_lt in Hfirst. rewrite total_cons. lia.
Qed.

End Budget.

(** C1.  For an encoder that keeps [<|im_start|>] as one reserved token,
    every history and every positive limit: the list the selector
    returns counts at most [limit] tokens; and the selector does return
    a list on every non-empty history.  (No exception is needed for a
    retained system message alone: it is retained only when its count is
    strictly below the limit.) *)
Theorem limitMessageTokens_within_limit
  (encode : list Z -> list Z)
  (encode_im_start : forall a b,
     encode (a ++ js "<|im_start|>" ++ b) = encode a ++ 100264 :: encode b)
  (messages : list MessageInterface) (limit : Z) (model : string) :
  0 < limit ->
  (forall out,
     limitMessageTokens encode messages limit model = Ok out ->
     exists n, countTokens encode (Some <$> out) model = Ok n /\ n <= limit)
  /\ (messages <> [] ->
      exists out, limitMessageTokens encode messages limit model = Ok out).
Proof.
  intros Hlimit. destruct messages as [|first rest].
  - split; [discriminate | congruence].
  - rewrite limitMessageTokens_cons. split; [|eauto].
    intros out [= <-]. eexists. split; [apply countTokens_Some|].
    rewrite tokens_normalised.
    etrans; [exact (tokens_le_total encode encode_im_start model _)|].
    apply total_selection. lia.
Qed.

(** ** The small encoder keeps the marker whole *)

Lemma starts_with_lookup p s :
  starts_with p s = true -> forall i x, p !! i = Some x -> s !! i = Some x.
Proof.
  revert s. induction p as [|y p IH]; intros s Hp i x Hi; [discriminate|].
  destruct s as [|z s]; [discriminate|].
  cbn [starts_with] in Hp. apply andb_true_iff in Hp as [Hyz Hp].
  apply Z.eqb_eq in Hyz. subst z.
  destruct i as [|i]; [exact Hi|]. exact (IH s Hp i x Hi).
Qed.

Lemma starts_with_length p s :
  starts_with p s = true -> (length p <= length s)%nat.
Proof.
  revert s. induction p as [|y p IH]; intros s Hp; [cbn; lia|].
  destruct s as [|z s]; [discriminate|].
  cbn [starts_with] in Hp. apply andb_true_iff in Hp as [_ Hp].
  specialize (IH s Hp). cbn [length]. lia.
Qed.

Lemma starts_with_app_long p s t :
  (length p <= length s)%nat -> starts_with p (s ++ t) = starts_with p s.
Proof.
  revert s. induction p as [|y p IH]; intros s Hlen; [reflexivity|].
  destruct s as [|z s]; [cbn in Hlen; lia|].
  cbn [starts_with app]. rewrite IH; [reflexivity | cbn [length] in Hlen; lia].
Qed.

(** The marker has [<] at its start only, so no occurrence of it begins
    inside another one. *)
Lemma im_start_inner i x :
  (0 < i)%nat -> js "<|im_start|>" !! i = Some x -> x <> 60.
Proof.
  intros Hi.
  do 12 (destruct i as [|i]; [try lia; intros [= <-]; discriminate|]).
  discriminate.
Qed.

Lemma im_start_no_straddle a b :
  (0 < length a < 12)%nat ->
  starts_with (js "<|im_start|>") (a ++ js "<|im_start|>" ++ b) = false.
Proof.
  intros Hlen.
  destruct (starts_with _ _) eqn:Hstart; [exfalso | reflexivity].
  destruct (lookup_lt_is_Some_2 (js "<|im_start|>") (length a)) as [x Hx];
    [cbn; lia|].
  pose proof (starts_with_lookup _ _ Hstart _ _ Hx) as Hat.
  rewrite lookup_app_r, Nat.sub_diag in Hat by lia.
  injection Hat as <-.
  exact (im_start_inner (length a) _ ltac:(lia) Hx eq_refl).
Qed.

Lemma toy_scan_marker b :
  toy_scan 0 (js "<|im_start|>" ++ b) = 100264 :: toy_scan 0 b.
Proof. reflexivity. Qed.

Lemma toy_scan_0_cons c text :
  toy_scan 0 (c :: text)
  = if starts_with (js "<|im_start|>") (c :: text)
    then 100264 :: toy_scan 11 text
    else c :: toy_scan 0 text.
Proof. reflexivity. Qed.

Lemma toy_scan_app a b skip :
  (skip <= length a)%nat ->
  toy_scan skip (a ++ js "<|im_start|>" ++ b)
  = toy_scan skip a ++ 100264 :: toy_scan 0 b.
Proof.
  revert skip. induction a as [|c a IH]; intros skip Hskip.
  - destruct skip; [apply toy_scan_marker | cbn in Hskip; lia].
  - destruct skip as [|skip].
    + rewrite <- app_comm_cons, !toy_scan_0_cons, app_comm_cons.
      destruct (le_lt_dec 12 (length (c :: a))) as [Hlong | Hshort].
      * rewrite starts_with_app_long by exact Hlong.
        destruct (starts_with _ (c :: a)).
        -- rewrite IH by (cbn [length] in Hlong; lia). reflexivity.
        -- rewrite IH by lia. reflexivity.
      * rewrite im_start_no_straddle by (cbn [length] in *; lia).
        destruct (starts_with _ (c :: a)) eqn:Hstart.
        -- apply starts_with_length in Hstart. cbn [length] in *.
           change (length (js "<|im_start|>")) with 12%nat in Hstart. lia.
        -- rewrite IH by lia. reflexivity.
    + rewrite <- app_comm_cons. cbn [toy_scan].
      apply IH. cbn [length] in Hskip. lia.
Qed.

Lemma toy_encode_im_start a b :
  toy_encode (a ++ js "<|im_start|>" ++ b)
  = toy_encode a ++ 100264 :: toy_encode b.
Proof. apply toy_scan_app. lia. Qed.

(** C1 on the history of the specification, with the small encoder and a
    limit of 100 tokens: the scan stops before [msgU1]. *)
Lemma limitMessageTokens_within_limit_witness :
  exists n,
    limitMessageTokens toy_encode [msgS; msgU1; msgA1; msgU2] 100 GPT35
    = Ok [msgS; msgA1; msgU2]
    /\ countTokens toy_encode (Some <$> [msgS; msgA1; msgU2]) GPT35 = Ok n
    /\ n <= 100.
Proof.
  destruct (limitMessageTokens_within_limit toy_encode toy_encode_im_start
              [msgS; msgU1; msgA1; msgU2] 100 GPT35 ltac:(lia))
    as [Hbound _].
  destruct (Hbound [msgS; msgA1; msgU2] ltac:(vm_compute; reflexivity))
    as (n & Hn & Hle).
  exists n. split; [vm_compute; reflexivity | auto].
Defined.

(** ** The accumulator *)

Lemma json_clone_lookup (t : gmap string TokenEntry) (key : string) :
  json_clone t !! key = t !! key.
Proof.
  unfold json_clone. rewrite lookup_fmap.
  destruct (t !! key) as [[p c]|]; reflexivity.
Qed.

(** One call returns the store with the entry of [model] replaced. *)
Lemma updateTotalTokenUsed_Ok encode model promptMessages completionMessage st :
  updateTotalTokenUsed encode model promptMessages completionMessage st
  = Ok (mkStore
          (<[model :=
               mkEntry
                 (Some (stored_prompt st model + tokens encode model promptMessages))
                 (Some (stored_completion st model
                        + tokens encode model [completionMessage]))]>
             (json_clone (totalTokenUsed st)))).
Proof.
  unfold updateTotalTokenUsed, stored_prompt, stored_completion, setTotalTokenUsed.
  rewrite countTokens_Some, countTokens_one, !bind_Ok, json_clone_lookup.
  destruct (totalTokenUsed st !! model) as [[p c]|]; reflexivity.
Qed.

(** C9.  A call adds the two new counts to the counters stored for
    [model], a missing entry or field read as 0, and leaves the entry of
    every other model as it was; a second identical call adds them once
    more, so that two calls add twice as much as one: each counter ends
    at its pre-call value plus twice the new count. *)
Theorem updateTotalTokenUsed_adds
  (encode : list Z -> list Z) (model : string)
  (promptMessages : list MessageInterface) (completionMessage : MessageInterface)
  (st : StoreState) :
  exists newPromptTokens newCompletionTokens st1 st2,
    countTokens encode (Some <$> promptMessages) model = Ok newPromptTokens
    /\ countTokens encode [Some completionMessage] model = Ok newCompletionTokens
    /\ updateTotalTokenUsed encode model promptMessages completionMessage st = Ok st1
    /\ updateTotalTokenUsed encode model promptMessages completionMessage st1 = Ok st2
    /\ totalTokenUsed st1 !! model
       = Some (mkEntry (Some (stored_prompt st model + newPromptTokens))
                       (Some (stored_completion st model + newCompletionTokens)))
    /\ totalTokenUsed st2 !! model
       = Some (mkEntry (Some (stored_prompt st model + 2 * newPromptTokens))
                       (Some (stored_completion st model + 2 * newCompletionTokens)))
    /\ (forall other, other <> model ->
          totalTokenUsed st1 !! other = totalTokenUsed st !! other
          /\ totalTokenUsed st2 !! other = totalTokenUsed st !! other).
Proof.
  eexists _, _, _, _.
  split; [apply countTokens_Some|].
  split; [apply countTokens_one|].
  split; [apply updateTotalTokenUsed_Ok|].
  split; [apply updateTotalTokenUsed_Ok|].
  cbn [totalTokenUsed].
  split; [apply lookup_insert_eq|].
  split.
  - rewrite lookup_insert_eq. unfold stored_prompt, stored_completion.
    cbn [totalTokenUsed]. rewrite lookup_insert_eq.
    cbn [promptTokens completionTokens default from_option]. unfold id.
    f_equal. f_equal; f_equal; lia.
  - intros other Hother.
    rewrite !lookup_insert_ne, !json_clone_lookup by congruence.
    rewrite lookup_insert_ne, json_clone_lookup by congruence.
    split; reflexivity.
Qed.

(** Two identical calls on a store where 'gpt-3.5-turbo' has the
    counters 1 and 1, with the small encoder, a prompt of 30 tokens and
    a completion of 35 tokens: the counters end at 1 + 2 * 30 and
    1 + 2 * 35. *)
Example updateTotalTokenUsed_twice_example :
  exists st1 st2,
    updateTotalTokenUsed toy_encode GPT35 [msgU1] msgA1 store0 = Ok st1
    /\ updateTotalTokenUsed toy_encode GPT35 [msgU1] msgA1 st1 = Ok st2
    /\ stored_prompt store0 GPT35 = 1
    /\ stored_completion store0 GPT35 = 1
    /\ stored_prompt st2 GPT35 = 61
    /\ stored_completion st2 GPT35 = 71.
Proof.
  eexists _, _.
  split; [apply updateTotalTokenUsed_Ok|].
  split; [apply updateTotalTokenUsed_Ok|].
  assert (H0 : stored_prompt store0 GPT35 = 1 /\ stored_completion store0 GPT35 = 1).
  { unfold stored_prompt, stored_completion, store0. cbn [totalTokenUsed].
    rewrite lookup_insert_eq. split; reflexivity. }
  destruct H0 as [Hp0 Hc0].
  split; [exact Hp0|]. split; [exact Hc0|].
  unfold stored_prompt at 1, stored_completion at 1. cbn [totalTokenUsed].
  rewrite !lookup_insert_eq. cbn [promptTokens completionTokens default from_option].
  unfold stored_prompt at 1, stored_completion at 1. cbn [totalTokenUsed].
  rewrite !lookup_insert_eq. cbn [promptTokens completionTokens default from_option].
  unfold id. rewrite !Hp0, !Hc0.
  change (tokens toy_encode GPT35 [msgU1]) with 30.
  change (tokens toy_encode GPT35 [msgA1]) with 35.
  split; reflexivity.
Qed.

(** * Further properties *)

(** ** The normaliser, character by character *)

(** The class lies inside the block of full-width forms. *)
Lemma class_bounds c : fullWidthSymbolsRegex c = true -> 0xff01 <= c <= 0xffe3.
Proof.
  unfold fullWidthSymbolsRegex. rewrite !orb_true_iff, !andb_true_iff, !Z.leb_le.
  intros [[[H | H] | H] | H]; try lia.
  apply existsb_exists in H as (x & Hin & Heq). apply Z.eqb_eq in Heq. subst x.
  cbn [In] in Hin. repeat (destruct Hin as [<- | Hin]; [lia|]). contradiction.
Qed.

(** The mapping read at every code unit of the block, checked against
    the closed form by evaluation. *)
Lemma replacer_table :
  forallb
    (fun n =>
       let c := 0xff01 + Z.of_nat n in
       negb (fullWidthSymbolsRegex c)
       || match replacer c with
          | [h] => h =? (if c =? 0xffe3 then 126 else c - 0xfee0)
          | _ => false
          end)
    (seq 0 227) = true.
Proof. vm_compute. reflexivity. Qed.

Lemma piece_half c :
  (if fullWidthSymbolsRegex c then replacer c else [c]) = [half c].
Proof.
  unfold half. destruct (fullWidthSymbolsRegex c) eqn:Hc; [|reflexivity].
  pose proof (class_bounds c Hc) as Hb.
  pose proof (proj1 (forallb_forall _ _) replacer_table (Z.to_nat (c - 0xff01))) as Ht.
  cbv beta zeta in Ht.
  replace (0xff01 + Z.of_nat (Z.to_nat (c - 0xff01))) with c in Ht by lia.
  rewrite Hc in Ht. cbn [negb orb] in Ht.
  specialize (Ht ltac:(apply in_seq; lia)).
  destruct (replacer c) as [|h [|h' r]]; try discriminate Ht.
  apply Z.eqb_eq in Ht. subst h. reflexivity.
Qed.

(** The closed form never lands in the class. *)
Lemma class_half c : fullWidthSymbolsRegex (half c) = false.
Proof.
  unfold half. destruct (fullWidthSymbolsRegex c) eqn:Hc; [|exact Hc].
  pose proof (class_bounds c Hc) as Hb.
  destruct (fullWidthSymbolsRegex (if c =? 0xffe3 then 126 else c - 0xfee0)) eqn:Hh;
    [|reflexivity].
  apply class_bounds in Hh. destruct (c =? 0xffe3); lia.
Qed.

(** X1.  [toHalfWidth] is a character-wise map: each code unit of the
    class is moved down by 0xFEE0 to its ASCII counterpart (U+FFE3 to
    the tilde) and every other code unit is copied. *)
Theorem toHalfWidth_as_map (text : list Z) :
  toHalfWidth text = half <$> text.
Proof.
  induction text as [|c text IH]; [reflexivity|].
  rewrite toHalfWidth_cons, piece_half, IH. reflexivity.
Qed.

(** X2.  The result of [toHalfWidth] holds no code unit of the class of
    the regular expression. *)
Theorem toHalfWidth_leaves_no_fullwidth (text : list Z) :
  Forall (fun c => fullWidthSymbolsRegex c = false) (toHalfWidth text).
Proof.
  induction text as [|c text IH]; [constructor|].
  rewrite toHalfWidth_cons, piece_half. constructor; [apply class_half | exact IH].
Qed.

(** X3.  [toHalfWidth] returns its argument unchanged exactly when the
    argument holds no code unit of the class. *)
Theorem toHalfWidth_unchanged_iff (text : list Z) :
  toHalfWidth text = text
  <-> Forall (fun c => fullWidthSymbolsRegex c = false) text.
Proof.
  split; [|apply toHalfWidth_outside_class].
  induction text as [|c text IH]; [constructor|].
  rewrite toHalfWidth_cons, piece_half. intros [= Hc Htext].
  constructor; [rewrite <- Hc; apply class_half | exact (IH Htext)].
Qed.

(** X4.  [toHalfWidth] commutes with concatenation and with reversal:
    normalising the parts and normalising the whole agree. *)
Theorem toHalfWidth_concat_reverse (a b : list Z) :
  toHalfWidth (a ++ b) = toHalfWidth a ++ toHalfWidth b
  /\ toHalfWidth (reverse a) = reverse (toHalfWidth a).
Proof.
  split.
  - induction a as [|c a IH]; [reflexivity|].
    rewrite <- app_comm_cons, !toHalfWidth_cons, IH. apply app_assoc.
  - induction a as [|c a IH]; [reflexivity|].
    rewrite reverse_cons, toHalfWidth_app, IH, !toHalfWidth_cons, piece_half.
    rewrite reverse_app. reflexivity.
Qed.

(** ** The serialiser and the counter on any array *)

Lemma mapM_message_text_hole roleSep (messages : list (option MessageInterface)) :
  None ∈ messages -> mapM (message_text roleSep) messages = Throw TypeError.
Proof.
  induction messages as [|element messages IH]; intros Hin.
  - apply elem_of_nil in Hin. contradiction.
  - destruct element as [m|]; [|reflexivity].
    apply elem_of_cons in Hin as [Hin | Hin]; [discriminate|].
    simpl. simpl in IH. rewrite (IH Hin). reflexivity.
Qed.

(** An array has a hole or is an array of messages. *)
Lemma hole_or_messages (messages : list (option MessageInterface)) :
  None ∈ messages \/ exists ms, messages = Some <$> ms.
Proof.
  induction messages as [|element messages [Hin | (ms & ->)]].
  - right. exists []. reflexivity.
  - left. apply elem_of_cons. right. exact Hin.
  - destruct element as [m|].
    + right. exists (m :: ms). reflexivity.
    + left. apply elem_of_cons. left. reflexivity.
Qed.

(** X5.  [countTokens] throws exactly when its array holds an
    [undefined] element: the [map] callback of [getChatGPTEncoding]
    destructures every element, and nothing else can fail. *)
Theorem countTokens_throws_iff
  (encode : list Z -> list Z) (messages : list (option MessageInterface))
  (model : string) :
  countTokens encode messages model = Throw TypeError <-> None ∈ messages.
Proof.
  split.
  - destruct (hole_or_messages messages) as [Hin | (ms & ->)]; [intros _; exact Hin|].
    rewrite countTokens_Some. discriminate.
  - intros Hin. unfold countTokens, getChatGPTEncoding, serialized.
    destruct messages as [|element messages];
      [apply elem_of_nil in Hin; contradiction|].
    cbn [length Nat.eqb]. cbv zeta.
    rewrite (mapM_message_text_hole _ _ Hin). reflexivity.
Qed.

(** X6.  Every model other than 'gpt-3.5-turbo' gets the second dialect:
    no separator between messages, each message wrapped as
    [<|im_start|>role<|im_sep|>content<|im_end|>] with its content
    normalised, and [<|im_start|>assistant<|im_sep|>] at the end. *)
Theorem dialectB_serialized (model : string)
  (m : MessageInterface) (ms : list MessageInterface) :
  model <> "gpt-3.5-turbo" ->
  serialized (Some <$> (m :: ms)) model
  = Ok ((x ← m :: ms;
           js "<|im_start|>" ++ role_text (role x) ++ js "<|im_sep|>"
           ++ toHalfWidth (content x) ++ js "<|im_end|>")
        ++ js "<|im_start|>assistant<|im_sep|>").
Proof.
  intros Hmodel. rewrite serialized_Some.
  unfold prompt, turn, open_turn, msgSep_of, roleSep_of.
  apply String.eqb_neq in Hmodel. rewrite Hmodel. reflexivity.
Qed.

Lemma dialectB_serialized_witness :
  serialized (Some <$> [msgU1; msgA1]) "gpt-4"
  = Ok (js "<|im_start|>user<|im_sep|>U1<|im_end|>"
        ++ js "<|im_start|>assistant<|im_sep|>A1<|im_end|>"
        ++ js "<|im_start|>assistant<|im_sep|>").
Proof.
  exact (dialectB_serialized "gpt-4" msgU1 [msgA1] ltac:(discriminate)).
Defined.

(** X7.  Counting does not see whether the contents were normalised
    beforehand: the count of the normalised copies is the count of the
    messages themselves. *)
Theorem countTokens_normalised
  (encode : list Z -> list Z) (ms : list MessageInterface) (model : string) :
  countTokens encode (Some <$> (normalised <$> ms)) model
  = countTokens encode (Some <$> ms) model.
Proof. rewrite !countTokens_Some, tokens_normalised. reflexivity. Qed.

Section Composition.

Variable encode : list Z -> list Z.

Hypothesis encode_im_start : forall a b,
  encode (a ++ js "<|im_start|>" ++ b) = encode a ++ 100264 :: encode b.

Variable model : string.

Lemma turn_tokens_app a b :
  turn_tokens encode model (a ++ b)
  = (turn_tokens encode model a + turn_tokens encode model b)%nat.
Proof.
  induction a as [|m a IH]; [reflexivity|].
  rewrite <- app_comm_cons. cbn [turn_tokens foldr].
  fold (turn_tokens encode model (a ++ b)). fold (turn_tokens encode model a).
  rewrite IH. lia.
Qed.

Lemma turn_tokens_Permutation ms ms' :
  ms ≡ₚ ms' -> turn_tokens encode model ms = turn_tokens encode model ms'.
Proof.
  induction 1 as [|m ms ms' _ IH|m1 m2 ms|ms1 ms2 ms3 _ IH1 _ IH2].
  - reflexivity.
  - cbn [turn_tokens foldr]. fold (turn_tokens encode model ms).
    fold (turn_tokens encode model ms'). rewrite IH. reflexivity.
  - cbn [turn_tokens foldr]. lia.
  - congruence.
Qed.

(** What a history of one message counts beyond the turn itself, and
    what a longer history therefore counts once only: the tokens of the
    empty text, the marker and the open assistant turn. *)
Lemma tokens_tail m m' ms :
  tokens encode model (m :: m' :: ms)
  = tokens encode model [m] + tokens encode model (m' :: ms)
    - Z.of_nat (length (encode []) + 1 + length (encode (open_turn model))).
Proof.
  rewrite !(tokens_cons encode encode_im_start).
  cbn [turn_tokens foldr]. lia.
Qed.

End Composition.

(** X8.  For an encoder that keeps [<|im_start|>] as one reserved token,
    the count of a history of two or more messages is the count of its
    first message alone plus the count of the rest, less the part both
    counts share: the tokens of the empty text, one marker and the open
    assistant turn. *)
Theorem countTokens_split
  (encode : list Z -> list Z)
  (encode_im_start : forall a b,
     encode (a ++ js "<|im_start|>" ++ b) = encode a ++ 100264 :: encode b)
  (model : string) (m m' : MessageInterface) (ms : list MessageInterface) :
  exists n1 n2,
    countTokens encode [Some m] model = Ok n1
    /\ countTokens encode (Some <$> (m' :: ms)) model = Ok n2
    /\ countTokens encode (Some <$> (m :: m' :: ms)) model
       = Ok (n1 + n2
             - Z.of_nat (length (encode []) + 1
                         + length (encode (js "assistant" ++ roleSep_of model)))).
Proof.
  eexists _, _.
  split; [apply countTokens_one|].
  split; [apply countTokens_Some|].
  rewrite countTokens_Some. f_equal.
  apply tokens_tail. exact encode_im_start.
Qed.

Lemma countTokens_split_witness :
  countTokens toy_encode [Some msgS] GPT35 = Ok 31
  /\ countTokens toy_encode (Some <$> [msgU1; msgA1]) GPT35 = Ok 54
  /\ countTokens toy_encode (Some <$> [msgS; msgU1; msgA1]) GPT35 = Ok (31 + 54 - 11).
Proof.
  destruct (countTokens_split toy_encode toy_encode_im_start GPT35 msgS msgU1 [msgA1])
    as (n1 & n2 & H1 & H2 & H).
  assert (E1 : Ok n1 = Ok 31) by (rewrite <- H1; vm_compute; reflexivity).
  assert (E2 : Ok n2 = Ok 54) by (rewrite <- H2; vm_compute; reflexivity).
  injection E1 as ->. injection E2 as ->.
  split; [exact H1|]. split; [exact H2|]. exact H.
Defined.

(** X9.  For an encoder that keeps [<|im_start|>] as one reserved token,
    the count of a history does not depend on the order of its
    messages; moving the system message inside the list, as the selector
    does, leaves the count as it is. *)
Theorem countTokens_Permutation
  (encode : list Z -> list Z)
  (encode_im_start : forall a b,
     encode (a ++ js "<|im_start|>" ++ b) = encode a ++ 100264 :: encode b)
  (model : string) (ms ms' : list MessageInterface) :
  ms ≡ₚ ms' ->
  countTokens encode (Some <$> ms) model = countTokens encode (Some <$> ms') model.
Proof.
  intros Hperm. rewrite !countTokens_Some. f_equal.
  destruct ms as [|m ms], ms' as [|m' ms'].
  - reflexivity.
  - apply Permutation_nil_cons in Hperm. contradiction.
  - symmetry in Hperm. apply Permutation_nil_cons in Hperm. contradiction.
  - rewrite !(tokens_cons encode encode_im_start).
    rewrite (turn_tokens_Permutation encode model _ _ Hperm). reflexivity.
Qed.

Lemma countTokens_Permutation_witness :
  countTokens toy_encode (Some <$> [msgU1; msgS; msgA1]) GPT35
  = countTokens toy_encode (Some <$> [msgS; msgU1; msgA1]) GPT35.
Proof.
  apply (countTokens_Permutation toy_encode toy_encode_im_start GPT35).
  apply perm_swap.
Defined.

(** X10.  For such an encoder, putting one more message anywhere into a
    history raises its count. *)
Theorem countTokens_insert_increases
  (encode : list Z -> list Z)
  (encode_im_start : forall a b,
     encode (a ++ js "<|im_start|>" ++ b) = encode a ++ 100264 :: encode b)
  (model : string) (a b : list MessageInterface) (m : MessageInterface) :
  exists n n',
    countTokens encode (Some <$> (a ++ b)) model = Ok n
    /\ countTokens encode (Some <$> (a ++ m :: b)) model = Ok n'
    /\ n < n'.
Proof.
  eexists _, _.
  split; [apply countTokens_Some|]. split; [apply countTokens_Some|].
  assert (Hmore : tokens encode model (a ++ m :: b)
                  = Z.of_nat (length (encode []) + turn_tokens encode model (a ++ m :: b)
                              + S (length (encode (open_turn model))))).
  { destruct a; apply (tokens_cons encode encode_im_start). }
  rewrite Hmore, turn_tokens_app. cbn [turn_tokens foldr].
  fold (turn_tokens encode model b).
  destruct (a ++ b) as [|x l] eqn:Hab.
  - cbn [tokens]. lia.
  - rewrite (tokens_cons encode encode_im_start), <- Hab, turn_tokens_app. lia.
Qed.

Lemma countTokens_insert_increases_witness :
  exists n n',
    countTokens toy_encode (Some <$> [msgS; msgA1]) GPT35 = Ok n
    /\ countTokens toy_encode (Some <$> [msgS; msgU1; msgA1]) GPT35 = Ok n'
    /\ n < n'.
Proof.
  exact (countTokens_insert_increases toy_encode toy_encode_im_start GPT35
           [msgS] [msgA1] msgU1).
Defined.

(** ** The selector: what it keeps *)

Lemma splice_insert_Permutation {A : Type} (x : A) (l : list A) :
  splice_insert (-3) x l ≡ₚ x :: l.
Proof.
  rewrite splice_insert_minus_3.
  etrans; [symmetry; apply Permutation_middle|].
  rewrite take_drop. reflexivity.
Qed.

Section SelectionFacts.

Variable encode : list Z -> list Z.
Variable model : string.
Variable limit : Z.

(** The messages chosen are the first message, or not, and a suffix of
    the rest, the first message being somewhere among them. *)
Lemma selection_cases first rest :
  exists kept,
    kept `suffix_of` rest
    /\ (selection encode model limit first rest = kept
        \/ selection encode model limit first rest ≡ₚ first :: kept
           /\ last (selection encode model limit first rest)
              = last (first :: kept)).
Proof.
  unfold selection.
  destruct (accept_reverse encode model limit rest
              (if is_system (role first) && (tokens encode model [first] <? limit)
               then tokens encode model [first] else 0))
    as (n & _ & -> & _).
  exists (drop n rest). split; [apply suffix_drop|].
  destruct (is_system (role first) && (tokens encode model [first] <? limit)).
  - right. split; [apply splice_insert_Permutation|].
    rewrite splice_insert_minus_3.
    destruct (drop n rest) as [|k kept] eqn:Hkept; [reflexivity|].
    rewrite last_cons, last_app, last_cons.
    assert (Hlast : is_Some (last (drop (length (k :: kept) - 3) (k :: kept)))).
    { rewrite last_lookup. apply lookup_lt_is_Some.
      rewrite length_drop. cbn [length]. lia. }
    destruct Hlast as [y Hy]. rewrite Hy.
    assert (Hsame : last (k :: kept) = Some y).
    { rewrite last_lookup in Hy |- *. rewrite lookup_drop, length_drop in Hy.
      rewrite <- Hy. f_equal. cbn [length]. lia. }
    rewrite Hsame. reflexivity.
  - destruct (is_system (role first)); [left; reflexivity|].
    destruct (_ <? limit); [right | left]; done.
Qed.

End SelectionFacts.

(** X11.  The selector neither invents nor repeats a message: its
    output is, as a multiset, contained in the normalised copies of the
    history, and so is never longer than the history. *)
Theorem limitMessageTokens_submseteq
  (encode : list Z -> list Z) (messages : list MessageInterface) (limit : Z)
  (model : string) (out : list MessageInterface) :
  limitMessageTokens encode messages limit model = Ok out ->
  out ⊆+ normalised <$> messages /\ (length out <= length messages)%nat.
Proof.
  intros Hout.
  assert (Hsub : out ⊆+ normalised <$> messages).
  { destruct messages as [|first rest]; [discriminate|].
    rewrite limitMessageTokens_cons in Hout. injection Hout as <-.
    apply fmap_submseteq.
    destruct (selection_cases encode model limit first rest)
      as (kept & [front ->] & [-> | [Hperm _]]).
    - apply submseteq_cons, submseteq_inserts_l. reflexivity.
    - rewrite Hperm. apply submseteq_skip, submseteq_inserts_l. reflexivity. }
  split; [exact Hsub|].
  apply submseteq_length in Hsub. rewrite length_fmap in Hsub. exact Hsub.
Qed.

Lemma limitMessageTokens_submseteq_witness :
  [msgS; msgA1; msgU2] ⊆+ normalised <$> [msgS; msgU1; msgA1; msgU2]
  /\ (length [msgS; msgA1; msgU2] <= length [msgS; msgU1; msgA1; msgU2])%nat.
Proof.
  apply (limitMessageTokens_submseteq toy_encode [msgS; msgU1; msgA1; msgU2] 100 GPT35).
  vm_compute. reflexivity.
Defined.

(** X12.  The latest message is never displaced: when the output has two
    messages or more, its last message is the normalised copy of the last
    message of the history. *)
Theorem limitMessageTokens_keeps_latest
  (encode : list Z -> list Z) (first : MessageInterface)
  (rest : list MessageInterface) (limit : Z) (model : string)
  (out : list MessageInterface) :
  limitMessageTokens encode (first :: rest) limit model = Ok out ->
  (2 <= length out)%nat ->
  last out = normalised <$> last rest.
Proof.
  rewrite limitMessageTokens_cons. intros [= <-]. rewrite length_fmap, fmap_last.
  intros Hlen. f_equal.
  assert (Hsuffix_last : forall kept : list MessageInterface,
            kept `suffix_of` rest -> kept <> [] -> last kept = last rest).
  { intros kept [front ->] Hne. rewrite last_app.
    destruct (last kept) eqn:Hk; [reflexivity|].
    apply last_None in Hk. contradiction. }
  destruct (selection_cases encode model limit first rest)
    as (kept & Hsuffix & [Hsel | [Hperm Hlast]]).
  - rewrite Hsel in *. apply Hsuffix_last; [exact Hsuffix|].
    intros ->. cbn in Hlen. lia.
  - rewrite Hlast. apply Permutation_length in Hperm. rewrite Hperm in Hlen.
    destruct kept as [|k kept]; [cbn in Hlen; lia|].
    rewrite last_cons_cons. apply Hsuffix_last; [exact Hsuffix | discriminate].
Qed.

Lemma limitMessageTokens_keeps_latest_witness :
  last [msgS; msgA1; msgU2] = normalised <$> last [msgU1; msgA1; msgU2].
Proof.
  apply (limitMessageTokens_keeps_latest toy_encode msgS [msgU1; msgA1; msgU2] 100 GPT35).
  - vm_compute. reflexivity.
  - cbn. lia.
Defined.

(** ** The selector: enough budget, no budget, more budget *)

Section BudgetSizes.

Variable encode : list Z -> list Z.
Variable model : string.

(** Messages that fit together are all accepted. *)
Lemma accept_all limit pending tokenCount accepted :
  tokenCount + total encode model pending <= limit ->
  accept encode model limit pending tokenCount accepted
  = (tokenCount + total encode model pending, reverse pending ++ accepted).
Proof.
  revert tokenCount accepted.
  induction pending as [|m pending IH]; intros tokenCount accepted Hfit.
  - cbn [accept total foldr reverse rev_append app]. f_equal. lia.
  - rewrite total_cons in Hfit. cbn [accept].
    pose proof (total_nonneg encode model pending).
    replace (tokens encode model [m] + tokenCount >? limit) with false
      by (symmetry; rewrite Z.gtb_ltb; apply Z.ltb_ge; lia).
    rewrite IH by lia. rewrite total_cons, reverse_cons, <- app_assoc.
    f_equal. lia.
Qed.

(** The accepted list only grows at its head and the running total only
    grows. *)
Lemma accept_extends limit pending tokenCount accepted :
  accepted `suffix_of` (accept encode model limit pending tokenCount accepted).2
  /\ tokenCount <= (accept encode model limit pending tokenCount accepted).1.
Proof.
  revert tokenCount accepted.
  induction pending as [|m pending IH]; intros tokenCount accepted.
  - cbn. split; [reflexivity | lia].
  - cbn [accept]. destruct (_ >? limit).
    + cbn. split; [reflexivity | lia].
    + destruct (IH (tokenCount + tokens encode model [m]) (m :: accepted))
        as [Hsuffix Hle].
      pose proof (tokens_nonneg encode model [m]).
      split; [|lia].
      etrans; [|exact Hsuffix]. apply suffix_cons_r. reflexivity.
Qed.

Lemma accept_monotone limit1 limit2 pending tokenCount accepted :
  limit1 <= limit2 ->
  (accept encode model limit1 pending tokenCount accepted).2
    `suffix_of` (accept encode model limit2 pending tokenCount accepted).2
  /\ (accept encode model limit1 pending tokenCount accepted).1
     <= (accept encode model limit2 pending tokenCount accepted).1.
Proof.
  intros Hle. revert tokenCount accepted.
  induction pending as [|m pending IH]; intros tokenCount accepted.
  - cbn. split; [reflexivity | lia].
  - cbn [accept].
    destruct (tokens encode model [m] + tokenCount >? limit1) eqn:H1;
      destruct (tokens encode model [m] + tokenCount >? limit2) eqn:H2.
    + cbn. split; [reflexivity | lia].
    + destruct (accept_extends limit2 pending
                  (tokenCount + tokens encode model [m]) (m :: accepted))
        as [Hsuffix Hgrow].
      pose proof (tokens_nonneg encode model [m]).
      cbn [fst snd]. split; [|lia].
      etrans; [|exact Hsuffix]. apply suffix_cons_r. reflexivity.
    + rewrite Z.gtb_ltb in H1, H2. apply Z.ltb_ge in H1. apply Z.ltb_lt in H2. lia.
    + apply IH.
Qed.

End BudgetSizes.

(** X13.  When the counts of all messages, taken one by one, add up to
    less than the limit, the selector returns the whole history with
    normalised contents and in its order, provided the first message is
    not a system message or at most three messages follow it. *)
Theorem limitMessageTokens_all_fit
  (encode : list Z -> list Z) (first : MessageInterface)
  (rest : list MessageInterface) (limit : Z) (model : string) :
  total encode model (first :: rest) < limit ->
  role first <> system \/ (length rest <= 3)%nat ->
  limitMessageTokens encode (first :: rest) limit model
  = Ok (normalised <$> first :: rest).
Proof.
  intros Hfit Hshape. rewrite limitMessageTokens_cons. f_equal. f_equal.
  rewrite total_cons in Hfit.
  pose proof (total_nonneg encode model rest) as Hrest.
  pose proof (tokens_nonneg encode model [first]) as Hfirst.
  unfold selection.
  replace (tokens encode model [first] <? limit) with true
    by (symmetry; apply Z.ltb_lt; lia).
  rewrite andb_true_r.
  destruct (is_system (role first)) eqn:Hsys.
  - rewrite accept_all by (rewrite total_reverse; lia).
    rewrite reverse_involutive, app_nil_r.
    destruct Hshape as [Hrole | Hlen];
      [destruct (role first); done|].
    rewrite splice_insert_minus_3.
    replace (length rest - 3)%nat with 0%nat by lia. reflexivity.
  - rewrite accept_all by (rewrite total_reverse; lia).
    rewrite reverse_involutive, app_nil_r, total_reverse.
    replace (tokens encode model [first] + (0 + total encode model rest) <? limit)
      with true by (symmetry; apply Z.ltb_lt; lia).
    reflexivity.
Qed.

Lemma limitMessageTokens_all_fit_witness :
  limitMessageTokens toy_encode [msgS; msgU1; msgA1; msgU2] 127 GPT35
  = Ok (normalised <$> [msgS; msgU1; msgA1; msgU2]).
Proof.
  apply limitMessageTokens_all_fit.
  - vm_compute. reflexivity.
  - right. cbn. lia.
Defined.

(** X14.  With a limit of zero or less the selector returns the empty
    list on every non-empty history, for an encoder that keeps
    [<|im_start|>] as one reserved token (every message then counts at
    least two tokens). *)
Theorem limitMessageTokens_no_budget
  (encode : list Z -> list Z)
  (encode_im_start : forall a b,
     encode (a ++ js "<|im_start|>" ++ b) = encode a ++ 100264 :: encode b)
  (first : MessageInterface) (rest : list MessageInterface)
  (limit : Z) (model : string) :
  limit <= 0 ->
  limitMessageTokens encode (first :: rest) limit model = Ok [].
Proof.
  intros Hlimit. rewrite limitMessageTokens_cons. f_equal.
  assert (Hpos : forall m, 2 <= tokens encode model [m]).
  { intros m. rewrite (tokens_cons encode encode_im_start).
    cbn [turn_tokens foldr]. lia. }
  unfold selection.
  replace (tokens encode model [first] <? limit) with false
    by (symmetry; apply Z.ltb_ge; specialize (Hpos first); lia).
  rewrite andb_false_r.
  assert (Hnone : accept encode model limit (reverse rest) 0 [] = (0, [])).
  { destruct (reverse rest) as [|m pending]; [reflexivity|].
    cbn [accept].
    replace (tokens encode model [m] + 0 >? limit) with true
      by (symmetry; rewrite Z.gtb_ltb; apply Z.ltb_lt; specialize (Hpos m); lia).
    reflexivity. }
  rewrite Hnone.
  destruct (is_system (role first)); [reflexivity|].
  replace (tokens encode model [first] + 0 <? limit) with false
    by (symmetry; apply Z.ltb_ge; specialize (Hpos first); lia).
  reflexivity.
Qed.

Lemma limitMessageTokens_no_budget_witness :
  limitMessageTokens toy_encode [msgS; msgU1; msgA1; msgU2] 0 GPT35 = Ok [].
Proof.
  apply (limitMessageTokens_no_budget toy_encode toy_encode_im_start). lia.
Defined.

(** X15.  A larger limit never makes the loop keep less: run from the
    same index and state with two limits, the list kept under the smaller
    limit is a suffix of the list kept under the larger one, and the
    running total is not larger. *)
Theorem scan_monotone
  (encode : list Z -> list Z) (messages : list MessageInterface) (model : string)
  (i : nat) (tokenCount : Z) (limitedMessages : list MessageInterface)
  (limit1 limit2 total1 total2 : Z) (kept1 kept2 : list MessageInterface) :
  limit1 <= limit2 ->
  scan encode messages limit1 model i tokenCount limitedMessages = Ok (total1, kept1) ->
  scan encode messages limit2 model i tokenCount limitedMessages = Ok (total2, kept2) ->
  kept1 `suffix_of` kept2 /\ total1 <= total2.
Proof.
  intros Hle.
  destruct i as [|i].
  - cbn [scan]. intros [= <- <-] [= <- <-]. split; [reflexivity | lia].
  - destruct (decide (S i < length messages)%nat) as [Hi | Hi].
    + rewrite !scan_accept by exact Hi. intros [= H1] [= H2].
      pose proof (accept_monotone encode model limit1 limit2
                    (reverse (take (S i) (drop 1 messages)))
                    tokenCount limitedMessages Hle) as [Hsuffix Htotal].
      rewrite H1, H2 in Hsuffix, Htotal. exact (conj Hsuffix Htotal).
    + cbn [scan]. rewrite lookup_ge_None_2 by lia. discriminate.
Qed.

Lemma scan_monotone_witness :
  [msgU2] `suffix_of` [msgA1; msgU2] /\ 30 <= 65.
Proof.
  apply (scan_monotone toy_encode [msgS; msgU1; msgA1; msgU2] GPT35 3 0 [] 40 70).
  - lia.
  - vm_compute. reflexivity.
  - vm_compute. reflexivity.
Defined.

(** ** The selector and the normaliser *)

Lemma normalised_twice m : normalised (normalised m) = normalised m.
Proof. unfold normalised. cbn [role content]. rewrite toHalfWidth_fixed. reflexivity. Qed.

Lemma tokens_one_normalised encode model m :
  tokens encode model [normalised m] = tokens encode model [m].
Proof. exact (tokens_normalised encode model [m]). Qed.

Lemma accept_normalised encode model limit pending tokenCount accepted :
  accept encode model limit (normalised <$> pending) tokenCount (normalised <$> accepted)
  = ((accept encode model limit pending tokenCount accepted).1,
     normalised <$> (accept encode model limit pending tokenCount accepted).2).
Proof.
  revert tokenCount accepted.
  induction pending as [|m pending IH]; intros tokenCount accepted; [reflexivity|].
  rewrite fmap_cons. cbn [accept]. rewrite tokens_one_normalised.
  destruct (_ >? limit); [reflexivity|].
  rewrite <- fmap_cons. apply IH.
Qed.

Lemma splice_insert_fmap {A B : Type} (f : A -> B) (x : A) (l : list A) :
  splice_insert (-3) (f x) (f <$> l) = f <$> splice_insert (-3) x l.
Proof.
  rewrite !splice_insert_minus_3, length_fmap, fmap_app, fmap_cons,
    fmap_take, fmap_drop.
  reflexivity.
Qed.

(** X16.  Normalising the contents of the history beforehand does not
    change what the selector returns. *)
Theorem limitMessageTokens_normalised_input
  (encode : list Z -> list Z) (messages : list MessageInterface) (limit : Z)
  (model : string) :
  limitMessageTokens encode (normalised <$> messages) limit model
  = limitMessageTokens encode messages limit model.
Proof.
  destruct messages as [|first rest]; [reflexivity|].
  rewrite fmap_cons, !limitMessageTokens_cons. f_equal.
  unfold selection.
  rewrite tokens_one_normalised. change (role (normalised first)) with (role first).
  rewrite <- fmap_reverse.
  pose proof (accept_normalised encode model limit (reverse rest)
                (if is_system (role first) && (tokens encode model [first] <? limit)
                 then tokens encode model [first] else 0) []) as Haccept.
  change (normalised <$> []) with (@nil MessageInterface) in Haccept.
  rewrite Haccept.
  destruct (accept encode model limit (reverse rest) _ []) as [tokenCount accepted].
  cbn [fst snd].
  assert (Hfix : forall l : list MessageInterface,
            normalised <$> (normalised <$> l) = normalised <$> l).
  { intros l. rewrite <- list_fmap_compose. apply list_fmap_ext.
    intros _ m _. apply normalised_twice. }
  destruct (is_system (role first) && (tokens encode model [first] <? limit)).
  - rewrite splice_insert_fmap. apply Hfix.
  - destruct (is_system (role first)); [apply Hfix|].
    destruct (_ <? limit); [|apply Hfix].
    rewrite <- fmap_cons. apply Hfix.
Qed.

(** ** The accumulator on several models *)

Lemma stored_after_insert (t : gmap string TokenEntry) model entry key :
  key <> model ->
  stored_prompt (mkStore (<[model := entry]> (json_clone t))) key
  = stored_prompt (mkStore t) key
  /\ stored_completion (mkStore (<[model := entry]> (json_clone t))) key
     = stored_completion (mkStore t) key.
Proof.
  intros Hkey. unfold stored_prompt, stored_completion. cbn [totalTokenUsed].
  rewrite lookup_insert_ne, json_clone_lookup by congruence. split; reflexivity.
Qed.

Lemma stored_at_insert (t : gmap string TokenEntry) model p c :
  stored_prompt (mkStore (<[model := mkEntry (Some p) (Some c)]> t)) model = p
  /\ stored_completion (mkStore (<[model := mkEntry (Some p) (Some c)]> t)) model = c.
Proof.
  unfold stored_prompt, stored_completion. cbn [totalTokenUsed].
  rewrite lookup_insert_eq. split; reflexivity.
Qed.

(** X17.  Two updates for different models commute: whichever is
    recorded first, the store ends the same. *)
Theorem updateTotalTokenUsed_commute
  (encode : list Z -> list Z) (model1 model2 : string)
  (prompt1 prompt2 : list MessageInterface) (completion1 completion2 : MessageInterface)
  (st : StoreState) :
  model1 <> model2 ->
  (st' ← updateTotalTokenUsed encode model1 prompt1 completion1 st;
   updateTotalTokenUsed encode model2 prompt2 completion2 st')
  = (st' ← updateTotalTokenUsed encode model2 prompt2 completion2 st;
     updateTotalTokenUsed encode model1 prompt1 completion1 st').
Proof.
  intros Hne. destruct st as [t].
  rewrite !updateTotalTokenUsed_Ok, !bind_Ok, !updateTotalTokenUsed_Ok.
  cbn [totalTokenUsed].
  destruct (stored_after_insert t model1
              (mkEntry (Some (stored_prompt (mkStore t) model1
                              + tokens encode model1 prompt1))
                       (Some (stored_completion (mkStore t) model1
                              + tokens encode model1 [completion1])))
              model2 ltac:(congruence)) as [-> ->].
  destruct (stored_after_insert t model2
              (mkEntry (Some (stored_prompt (mkStore t) model2
                              + tokens encode model2 prompt2))
                       (Some (stored_completion (mkStore t) model2
                              + tokens encode model2 [completion2])))
              model1 ltac:(congruence)) as [-> ->].
  f_equal. f_equal. apply map_eq. intros key.
  destruct (decide (key = model1)) as [-> | H1];
    [|destruct (decide (key = model2)) as [-> | H2]].
  - rewrite lookup_insert_ne, json_clone_lookup, !lookup_insert_eq by congruence.
    reflexivity.
  - rewrite lookup_insert_eq, lookup_insert_ne, json_clone_lookup, lookup_insert_eq
      by congruence.
    reflexivity.
  - rewrite !lookup_insert_ne, !json_clone_lookup, !lookup_insert_ne by congruence.
    reflexivity.
Qed.

Lemma updateTotalTokenUsed_commute_witness :
  (st' ← updateTotalTokenUsed toy_encode GPT35 [msgU1] msgA1 store0;
   updateTotalTokenUsed toy_encode GPT4 [msgU2] msgA2 st')
  = (st' ← updateTotalTokenUsed toy_encode GPT4 [msgU2] msgA2 store0;
     updateTotalTokenUsed toy_encode GPT35 [msgU1] msgA1 st').
Proof.
  apply updateTotalTokenUsed_commute. discriminate.
Defined.

(** X18.  An update adds the key of its model to the keys of the store
    and removes none. *)
Theorem updateTotalTokenUsed_dom
  (encode : list Z -> list Z) (model : string)
  (promptMessages : list MessageInterface) (completionMessage : MessageInterface)
  (st st' : StoreState) :
  updateTotalTokenUsed encode model promptMessages completionMessage st = Ok st' ->
  dom (totalTokenUsed st') = {[ model ]} ∪ dom (totalTokenUsed st).
Proof.
  rewrite updateTotalTokenUsed_Ok. intros [= <-]. cbn [totalTokenUsed].
  unfold json_clone. rewrite dom_insert_L, dom_fmap_L. reflexivity.
Qed.

Lemma updateTotalTokenUsed_dom_witness :
  exists st',
    updateTotalTokenUsed toy_encode "gpt-4-32k" [msgU1] msgA1 store0 = Ok st'
    /\ dom (totalTokenUsed st') = {[ "gpt-4-32k" ]} ∪ dom (totalTokenUsed store0).
Proof.
  eexists. split; [apply updateTotalTokenUsed_Ok|].
  apply (updateTotalTokenUsed_dom toy_encode "gpt-4-32k" [msgU1] msgA1 store0).
  apply updateTotalTokenUsed_Ok.
Defined.

(** X19.  No counter ever goes down: after an update the prompt and
    completion counters of every model are at least what they were. *)
Theorem updateTotalTokenUsed_monotone
  (encode : list Z -> list Z) (model : string)
  (promptMessages : list MessageInterface) (completionMessage : MessageInterface)
  (st st' : StoreState) (key : string) :
  updateTotalTokenUsed encode model promptMessages completionMessage st = Ok st' ->
  stored_prompt st key <= stored_prompt st' key
  /\ stored_completion st key <= stored_completion st' key.
Proof.
  rewrite updateTotalTokenUsed_Ok.
  generalize (tokens_nonneg encode model promptMessages)
    (tokens_nonneg encode model [completionMessage]).
  generalize (tokens encode model promptMessages)
    (tokens encode model [completionMessage]).
  intros newPrompt newCompletion HnewPrompt HnewCompletion [= <-].
  destruct (decide (key = model)) as [-> | Hkey].
  - destruct (stored_at_insert (json_clone (totalTokenUsed st)) model
                (stored_prompt st model + newPrompt)
                (stored_completion st model + newCompletion))
      as [-> ->].
    lia.
  - destruct st as [t]. cbn [totalTokenUsed].
    destruct (stored_after_insert t model
                (mkEntry (Some (stored_prompt (mkStore t) model + newPrompt))
                         (Some (stored_completion (mkStore t) model + newCompletion)))
                key Hkey) as [-> ->].
    lia.
Qed.

Lemma updateTotalTokenUsed_monotone_witness :
  exists st',
    updateTotalTokenUsed toy_encode GPT35 [msgU1] msgA1 store0 = Ok st'
    /\ stored_prompt store0 GPT35 <= stored_prompt st' GPT35
    /\ stored_completion store0 GPT35 <= stored_completion st' GPT35.
Proof.
  eexists. split; [apply updateTotalTokenUsed_Ok|].
  apply (updateTotalTokenUsed_monotone toy_encode GPT35 [msgU1] msgA1 store0).
  apply updateTotalTokenUsed_Ok.
Defined.

(** ** The token sequence of a history *)

Section TokenSequence.

Variable encode : list Z -> list Z.

Hypothesis encode_im_start : forall a b,
  encode (a ++ js "<|im_start|>" ++ b) = encode a ++ 100264 :: encode b.

Variable model : string.

Lemma encode_turns ms x :
  encode (x ++ (m ← ms; js "<|im_start|>" ++ turn model m)
            ++ js "<|im_start|>" ++ open_turn model)
  = encode x ++ (m ← ms; 100264 :: encode (turn model m))
    ++ 100264 :: encode (open_turn model).
Proof.
  revert x. induction ms as [|m ms IH]; intros x.
  - change (encode (x ++ _))
      with (encode (x ++ js "<|im_start|>" ++ open_turn model)).
    apply encode_im_start.
  - rewrite !bind_cons.
    replace (x ++ ((js "<|im_start|>" ++ turn model m)
                   ++ (m0 ← ms; js "<|im_start|>" ++ turn model m0))
               ++ js "<|im_start|>" ++ open_turn model)
      with (x ++ js "<|im_start|>"
              ++ (turn model m ++ (m0 ← ms; js "<|im_start|>" ++ turn model m0)
                  ++ js "<|im_start|>" ++ open_turn model))
      by (rewrite <- !app_assoc; reflexivity).
    rewrite encode_im_start, IH. cbn [app]. rewrite <- !app_assoc. reflexivity.
Qed.

End TokenSequence.

(** X20.  For an encoder that keeps [<|im_start|>] as one reserved token,
    the tokens of a non-empty history are the tokens of the empty text,
    then for each message the token 100264 followed by the tokens of its
    turn (role, separator, normalised content, [<|im_end|>], message
    separator), then 100264 and the tokens of the open assistant turn. *)
Theorem getChatGPTEncoding_tokens
  (encode : list Z -> list Z)
  (encode_im_start : forall a b,
     encode (a ++ js "<|im_start|>" ++ b) = encode a ++ 100264 :: encode b)
  (model : string) (m : MessageInterface) (ms : list MessageInterface) :
  getChatGPTEncoding encode (Some <$> (m :: ms)) model
  = Ok (encode []
        ++ (x ← m :: ms;
              100264 :: encode (role_text (role x) ++ roleSep_of model
                                ++ toHalfWidth (content x) ++ js "<|im_end|>"
                                ++ msgSep_of model))
        ++ 100264 :: encode (js "assistant" ++ roleSep_of model)).
Proof.
  unfold getChatGPTEncoding. rewrite serialized_Some, bind_Ok. f_equal.
  exact (encode_turns encode encode_im_start model (m :: ms) []).
Qed.

Lemma getChatGPTEncoding_tokens_witness :
  getChatGPTEncoding toy_encode (Some <$> [msgU1]) GPT35
  = Ok ([100264] ++ js "user" ++ LF ++ js "U1<|im_end|>" ++ LF
        ++ [100264] ++ js "assistant" ++ LF).
Proof.
  exact (getChatGPTEncoding_tokens toy_encode toy_encode_im_start GPT35 msgU1 []).
Defined.
